(** * rag_books: the vector store (src/vector_store.py)

    A shallow embedding of [VectorStore]: the text normalizer
    [clean_text], the checkpointed batch loop of [add_documents], the
    retriever [search] and the persistence pair [save] / [load].

    Python strings are sequences of Unicode code points, so a text is a
    list of code points ([N]); the checkpoint directory and the final
    artifact are explicit state. *)

From Stdlib Require Import ZArith NArith QArith Qfield Lqa Lia String Ascii.
From stdpp Require Import base option list sorting strings gmap.

Local Open Scope N_scope.

(** ** Text normalizer *)

Module Text.

Definition text := list N.

(** Code points of an ASCII literal, for readable examples. *)
Fixpoint of_string (s : string) : text :=
  match s with
  | EmptyString => []
  | String a r => N_of_ascii a :: of_string r
  end.

Definition SPACE : N := 32.

(** [str.isspace] on one code point, which is also what [\s] matches in a
    [str] pattern and what [str.strip()] removes. *)
Definition is_space (c : N) : bool :=
  ((9 <=? c) && (c <=? 13)) || ((28 <=? c) && (c <=? 31)) || (c =? 32)
  || (c =? 133) || (c =? 160) || (c =? 5760)
  || ((8192 <=? c) && (c <=? 8202)) || (c =? 8232) || (c =? 8233)
  || (c =? 8239) || (c =? 8287) || (c =? 12288).

(** The character class [[\x01-\x1F\x7F]]. *)
Definition in_ctrl_class (c : N) : bool :=
  ((1 <=? c) && (c <=? 31)) || (c =? 127).

(** The code points the two replacement steps remove: NUL and the class
    above. *)
Definition is_control (c : N) : bool := (c =? 0) || in_ctrl_class c.

(** [text.replace('\x00', ' ')] *)
Definition replace_nul (t : text) : text :=
  map (fun c => if c =? 0 then SPACE else c) t.

(** [re.sub(r'[\x01-\x1F\x7F]', ' ', text)] *)
Definition sub_ctrl (t : text) : text :=
  map (fun c => if in_ctrl_class c then SPACE else c) t.

(** [re.sub(r'\s+', ' ', text)]: every maximal run of whitespace becomes
    one space.  [in_run] tells that the previous code point was part of
    the run being replaced. *)
Fixpoint sub_ws_from (in_run : bool) (t : text) : text :=
  match t with
  | [] => []
  | c :: r =>
      if is_space c
      then (if in_run then sub_ws_from true r else SPACE :: sub_ws_from true r)
      else c :: sub_ws_from false r
  end.

Definition sub_ws (t : text) : text := sub_ws_from false t.

Definition MAX_LEN : nat := N.to_nat 10000.

(** [if len(text) > 10000: text = text[:10000]] *)
Definition truncate (t : text) : text :=
  if Nat.ltb MAX_LEN (length t) then take MAX_LEN t else t.

Fixpoint lstrip (t : text) : text :=
  match t with
  | [] => []
  | c :: r => if is_space c then lstrip r else t
  end.

Fixpoint rstrip (t : text) : text :=
  match t with
  | [] => []
  | c :: r =>
      match rstrip r with
      | [] => if is_space c then [] else [c]
      | r' => c :: r'
      end
  end.

(** [text.strip()] *)
Definition strip (t : text) : text := rstrip (lstrip t).

(** The string branch of [clean_text]. *)
Definition clean_str (t : text) : text :=
  strip (truncate (sub_ws (sub_ctrl (replace_nul t)))).

(** A Python value as [clean_text] sees it: a [str] or anything else. *)
Inductive pyval :=
  | PyStr (t : text)
  | PyOther.

(** [VectorStore.clean_text] *)
Definition clean_text (v : pyval) : text :=
  match v with
  | PyStr t => clean_str t
  | PyOther => []
  end.

(** *** Shape of a normalized text *)

(** Whitespace occurs only as isolated [SPACE]s; [prev] tells that the
    code point before the list is whitespace. *)
Fixpoint spaced (prev : bool) (t : text) : Prop :=
  match t with
  | [] => True
  | c :: r =>
      if is_space c then c = SPACE /\ prev = false /\ spaced true r
      else spaced false r
  end.

Definition no_control (t : text) : Prop :=
  Forall (fun c => is_control c = false) t.

Definition starts_clean (t : text) : Prop :=
  match t with
  | [] => True
  | c :: _ => is_space c = false
  end.

#[global] Arguments is_space : simpl never.
#[global] Arguments is_control : simpl never.
#[global] Arguments in_ctrl_class : simpl never.

(** The normal form that [clean_str] produces. *)
Record normalized (t : text) : Prop := {
  norm_ctrl : no_control t;
  norm_spaced : spaced false t;
  norm_length : (length t <= MAX_LEN)%nat;
  norm_strip : strip t = t
}.

End Text.

(** ** Documents, backends and the objects on disk *)

Module Store.
Import Text.

Local Open Scope Z_scope.

(** The [metadata] dictionary that [DocumentProcessor.process_textbooks]
    attaches to every chunk. *)
Record Metadata := {
  path : string;
  category : string;
  filename : string;
  chunk_id : Z
}.

(** A document dictionary.  [content] is [None] when the key is absent,
    so that [doc["content"]] raises [KeyError]. *)
Record Doc := {
  content : option pyval;
  metadata : Metadata
}.

(** The sentence-transformer model: [encode] is
    [self.model.encode([text])[0]], [None] when the call raises.  [Emb] is
    the type of the vectors of the model's dimension. *)
Class Embedder := {
  Emb : Type;
  encode : text -> option Emb
}.

(** The faiss flat L2 index.  [index_build] is [np.vstack],
    [IndexFlatL2(dim)] and [add], which do not fail on vectors of one
    dimension; [index_search idx q k] is [idx.search(q, k)] with row 0 of
    the distance and label matrices zipped, [None] when the call raises;
    distances are exact rationals here. *)
Class IndexBackend `{Embedder} := {
  Index : Type;
  Blob : Type;
  index_build : list Emb -> Index;
  ntotal : Index -> nat;
  index_search : Index -> Emb -> Z -> option (list (Q * Z));
  serialize_index : Index -> Blob;
  deserialize_index : Blob -> option Index
}.

Section VectorStore.
Context `{IndexBackend}.

(** The attributes of a [VectorStore] object next to its model.
    [embeddings] is [None] while the attribute does not exist. *)
Record VectorStore := {
  index : option Index;
  documents : list Doc;
  embeddings : option (list Emb)
}.

(** [VectorStore.__init__] once the model is loaded. *)
Definition init : VectorStore :=
  {| index := None; documents := []; embeddings := None |}.

(** What [pickle.load] gives for a checkpoint artifact: the values under
    'documents' and 'embeddings', an absent key read as [[]] as
    [dict.get] does. *)
Record CheckpointData := {
  ck_documents : list Doc;
  ck_embeddings : list Emb
}.

(** A checkpoint artifact on disk: one that cannot be opened, unpickled
    or read as a dictionary, or one that holds data. *)
Inductive CheckpointFile :=
  | CkptUnreadable
  | CkptData (d : CheckpointData).

(** checkpoint_info.json on disk.  [InfoUnreadable] stands for every file
    on which the [try] block fails before it looks for the artifact: it
    cannot be opened, is not JSON, is not an object, or its 'next_batch'
    is not a number.  [InfoRecord nb] is a JSON object whose 'next_batch'
    is the integer [nb], or is absent. *)
Inductive InfoFile :=
  | InfoUnreadable
  | InfoRecord (next_batch : option Z).

(** The final artifact: the dictionary that [save] pickles. *)
Record Persisted := {
  p_documents : list Doc;
  p_index : option Blob
}.

(** The files the store touches: the checkpoint directory (the info
    record and the artifacts by batch index) and the final artifacts by
    path. *)
Record Disk := {
  info : option InfoFile;
  ckpts : gmap Z CheckpointFile;
  stores : gmap string Persisted
}.

Definition empty_disk : Disk :=
  {| info := None; ckpts := ∅; stores := ∅ |}.

(** The writes of [add_documents] into the checkpoint directory, in the
    order they happen. *)
Inductive Event :=
  | WroteCheckpoint (batch_idx : Z) (d : CheckpointData)
  | WroteInfo (next_batch : Z).

Definition write_info (n : Z) (d : Disk) : Disk :=
  {| info := Some (InfoRecord (Some n)); ckpts := ckpts d; stores := stores d |}.

Definition write_checkpoint (i : Z) (c : CheckpointData) (d : Disk) : Disk :=
  {| info := info d; ckpts := <[i := CkptData c]> (ckpts d); stores := stores d |}.

Definition remove_info (d : Disk) : Disk :=
  {| info := None; ckpts := ckpts d; stores := stores d |}.

Definition remove_checkpoint (d : Disk) (i : Z) : Disk :=
  {| info := info d; ckpts := delete i (ckpts d); stores := stores d |}.

(** ** Persistence *)

(** [VectorStore.save]: [serialize_index] only when [self.index] is set. *)
Definition save (s : VectorStore) (p : string) (d : Disk) : Disk :=
  {| info := info d;
     ckpts := ckpts d;
     stores := <[p := {| p_documents := documents s;
                         p_index := serialize_index <$> index s |}]> (stores d) |}.

Inductive Error :=
  | EmptyStore        (* ValueError("Vector store is empty. Add documents first.") *)
  | BackendError      (* raised by the model or by faiss *)
  | FileError.        (* raised by open or pickle *)

(** [VectorStore.load], on the object [s]. *)
Definition load (s : VectorStore) (p : string) (d : Disk) : Error + VectorStore :=
  match stores d !! p with
  | None => inl FileError
  | Some data =>
      match p_index data with
      | Some b =>
          match deserialize_index b with
          | Some i =>
              inr {| index := Some i; documents := p_documents data;
                     embeddings := embeddings s |}
          | None => inl BackendError
          end
      | None =>
          inr {| index := None; documents := p_documents data;
                 embeddings := embeddings s |}
      end
  end.

(** ** Retrieval *)

Record SearchResult := {
  doc : Doc;
  score : Q
}.

(** One pass of the result loop: keep the hit when its label is a
    position of [documents]. *)
Definition hit_result (docs : list Doc) (h : Q * Z) : option SearchResult :=
  let '(d, idx) := h in
  if (idx <? Z.of_nat (length docs)) && (idx >=? 0)
  then (fun x => {| doc := x; score := (1 / (1 + d))%Q |}) <$> docs !! Z.to_nat idx
  else None.

(** [VectorStore.search] *)
Definition search (s : VectorStore) (query : text) (k : Z)
  : Error + list SearchResult :=
  match index s with
  | None => inl EmptyStore
  | Some idx =>
      match encode query with
      | None => inl BackendError
      | Some q =>
          match index_search idx q k with
          | None => inl BackendError
          | Some hits => inr (omap (hit_result (documents s)) hits)
          end
      end
  end.

(** ** The checkpointed batch loop *)

Definition BATCH_SIZE : Z := 8.
Definition SUB_BATCH_SIZE : nat := 2.

(** A Python slice bound: negative bounds count from the end, and all
    bounds are clamped to the list. *)
Definition slice_bound (len i : Z) : Z :=
  if i <? 0 then Z.max 0 (i + len) else Z.min i len.

(** [l[a:b]] *)
Definition py_slice {A} (l : list A) (a b : Z) : list A :=
  let len := Z.of_nat (length l) in
  let a' := slice_bound len a in
  let b' := slice_bound len b in
  take (Z.to_nat (b' - a')) (drop (Z.to_nat a') l).

(** [l[a:b]] for bounds that are known positions. *)
Definition slice {A} (l : list A) (a b : nat) : list A :=
  take (b - a) (drop a l).

(** [range(0, n, step)] *)
Definition range_step (n step : nat) : list nat :=
  (fun j => (j * step)%nat) <$> seq 0 ((n + step - 1) `div` step)%nat.

(** The resume decision at the start of [add_documents]: the batch to
    start from and the accumulators. *)
Definition resume (d : Disk) : Z * list Doc * list Emb :=
  match info d with
  | Some (InfoRecord nb) =>
      let start_batch := default 0 nb in
      match ckpts d !! (start_batch - 1) with
      | Some (CkptData c) => (start_batch, ck_documents c, ck_embeddings c)
      | Some CkptUnreadable => (0, [], [])     (* except Exception *)
      | None => (0, [], [])                    (* checkpoint file not found *)
      end
  | Some InfoUnreadable => (0, [], [])         (* except Exception *)
  | None => (0, [], [])
  end.

(** The cleaning loop over [enumerate(batch_docs)], from position [i]:
    the cleaned texts that are not empty, and their positions.  A missing
    'content' raises inside the [try] and the document is passed over. *)
Fixpoint prepare_from (i : nat) (batch_docs : list Doc) : list text * list nat :=
  match batch_docs with
  | [] => ([], [])
  | d :: r =>
      let '(texts, indices) := prepare_from (S i) r in
      match content d with
      | Some v =>
          match clean_text v with
          | [] => (texts, indices)
          | cleaned => (cleaned :: texts, i :: indices)
          end
      | None => (texts, indices)
      end
  end.

Definition prepare (batch_docs : list Doc) : list text * list nat :=
  prepare_from 0 batch_docs.

(** The body of the innermost loop for one [(text, idx)]: both appends
    happen only after [encode] has returned. *)
Definition embed_item (batch_docs : list Doc)
    (acc : list Doc * list Emb) (item : text * nat) : list Doc * list Emb :=
  let '(successful_docs, successful_embeddings) := acc in
  let '(t, idx) := item in
  match batch_docs !! idx with
  | Some d =>
      match encode t with
      | Some e => (successful_docs ++ [d], successful_embeddings ++ [e])
      | None => acc                      (* except Exception as e2 *)
      end
  | None => acc                          (* IndexError, same handler *)
  end.

(** One sub-batch: [zip(sub_texts, sub_indices)]. *)
Definition embed_sub_batch (batch_docs : list Doc)
    (batch_texts : list text) (batch_indices : list nat)
    (acc : list Doc * list Emb) (sub_idx : nat) : list Doc * list Emb :=
  let sub_end := Nat.min (sub_idx + SUB_BATCH_SIZE) (length batch_texts) in
  let sub_texts := slice batch_texts sub_idx sub_end in
  let sub_indices := slice batch_indices sub_idx sub_end in
  foldl (embed_item batch_docs) acc (zip sub_texts sub_indices).

(** All sub-batches of a batch. *)
Definition embed_batch (batch_docs : list Doc)
    (batch_texts : list text) (batch_indices : list nat) : list Doc * list Emb :=
  foldl (embed_sub_batch batch_docs batch_texts batch_indices) ([], [])
        (range_step (length batch_texts) SUB_BATCH_SIZE).

(** The state the batch loop threads: the two accumulators, the disk and
    the writes so far. *)
Record RunState := {
  acc_docs : list Doc;
  acc_embs : list Emb;
  st_disk : Disk;
  st_log : list Event
}.

(** [documents[start_idx:end_idx]] of batch [batch_idx]. *)
Definition batch_of (docs : list Doc) (batch_idx : Z) : list Doc :=
  let start_idx := batch_idx * BATCH_SIZE in
  let end_idx := Z.min (start_idx + BATCH_SIZE) (Z.of_nat (length docs)) in
  py_slice docs start_idx end_idx.

(** One iteration of [for batch_idx in range(start_batch, total_batches)]. *)
Definition process_batch (docs : list Doc) (st : RunState) (batch_idx : Z)
  : RunState :=
  let batch_docs := batch_of docs batch_idx in
  let '(batch_texts, batch_indices) := prepare batch_docs in
  match batch_texts with
  | [] =>
      (* no valid texts: save checkpoint info, continue *)
      {| acc_docs := acc_docs st;
         acc_embs := acc_embs st;
         st_disk := write_info (batch_idx + 1) (st_disk st);
         st_log := st_log st ++ [WroteInfo (batch_idx + 1)] |}
  | _ =>
      let '(successful_docs, successful_embeddings) :=
        embed_batch batch_docs batch_texts batch_indices in
      let ds := acc_docs st ++ successful_docs in
      let es := acc_embs st ++ successful_embeddings in
      let c := {| ck_documents := ds; ck_embeddings := es |} in
      {| acc_docs := ds;
         acc_embs := es;
         st_disk := write_info (batch_idx + 1)
                      (write_checkpoint batch_idx c (st_disk st));
         st_log := st_log st ++ [WroteCheckpoint batch_idx c;
                                 WroteInfo (batch_idx + 1)] |}
  end.

(** [(len(documents) + batch_size - 1) // batch_size] *)
Definition total_batches (docs : list Doc) : Z :=
  (Z.of_nat (length docs) + BATCH_SIZE - 1) `div` BATCH_SIZE.

(** The state in which the batch loop starts. *)
Definition start_state (d : Disk) : Z * RunState :=
  let '(start_batch, ds, es) := resume d in
  (start_batch,
   {| acc_docs := ds; acc_embs := es; st_disk := d; st_log := [] |}).

(** The batch loop, cut after at most [limit] iterations; the process
    can be killed between two batches. *)
Definition run_batches_upto (limit : nat) (docs : list Doc) (d : Disk) : RunState :=
  let '(start_batch, st) := start_state d in
  foldl (process_batch docs) st
        (take limit (seqZ start_batch (total_batches docs - start_batch))).

(** The whole batch loop. *)
Definition run_batches (docs : list Doc) (d : Disk) : RunState :=
  let '(start_batch, st) := start_state d in
  foldl (process_batch docs) st
        (seqZ start_batch (total_batches docs - start_batch)).

(** What follows the loop: build the index, save it, remove the
    checkpoints; or leave everything when no embedding was collected. *)
Definition finish (s : VectorStore) (docs : list Doc) (output_path : option string)
    (st : RunState) : VectorStore * Disk :=
  match acc_embs st with
  | [] =>
      ({| index := index s; documents := acc_docs st; embeddings := Some [] |},
       st_disk st)
  | es =>
      let s' := {| index := Some (index_build es);
                   documents := acc_docs st;
                   embeddings := None |} in           (* del self.embeddings *)
      let d1 := match output_path with
                | Some p => save s' p (st_disk st)
                | None => st_disk st
                end in
      let d2 := foldl remove_checkpoint d1 (seqZ 0 (total_batches docs)) in
      (s', remove_info d2)
  end.

(** [VectorStore.add_documents]: the store and the disk afterwards, and
    the checkpoint writes of the run.  [output_path] is [None] for a
    path that is [None] or empty. *)
Definition add_documents (s : VectorStore) (docs : list Doc)
    (output_path : option string) (d : Disk) : VectorStore * Disk * list Event :=
  let st := run_batches docs d in
  let '(s', d') := finish s docs output_path st in
  (s', d', st_log st).

(** ** Notions the properties are stated with *)

(** The cleaned text of a document when the cleaning loop keeps it. *)
Definition usable (d : Doc) : option text :=
  match content d with
  | Some v => match clean_text v with [] => None | t => Some t end
  | None => None
  end.

(** The embedding a document ends up with: its cleaned text is not empty
    and the model encodes it. *)
Definition embedding_of (d : Doc) : option Emb := usable d ≫= encode.

Definition survives (d : Doc) : Prop := is_Some (embedding_of d).

(** The two accumulators hold the same documents, position by position. *)
Definition paired (ds : list Doc) (es : list Emb) : Prop :=
  Forall2 (fun d e => embedding_of d = Some e) ds es.

(** Every checkpoint artifact on the disk holds paired accumulators. *)
Definition disk_paired (d : Disk) : Prop :=
  forall i c, ckpts d !! i = Some (CkptData c) ->
              paired (ck_documents c) (ck_embeddings c).

(** Every checkpoint write of a log holds paired accumulators. *)
Definition log_paired (log : list Event) : Prop :=
  forall i c, WroteCheckpoint i c ∈ log ->
              paired (ck_documents c) (ck_embeddings c).

(** The invariant of the batch loop. *)
Record state_paired (st : RunState) : Prop := {
  sp_acc : paired (acc_docs st) (acc_embs st);
  sp_log : log_paired (st_log st);
  sp_disk : disk_paired (st_disk st)
}.


(** The result loop: every result comes from a hit, with the score of
    its distance and the document of its label, in the order of the
    hits. *)
Definition from_hit (docs : list Doc) (r : SearchResult) (h : Q * Z) : Prop :=
  0 <= h.2 /\ docs !! Z.to_nat h.2 = Some (doc r)
  /\ score r = (1 / (1 + h.1))%Q.

(** The hits of a search that name a vector: faiss fills the row up with
    label -1 when the index holds fewer than [k] vectors. *)
Definition valid_hits (hits : list (Q * Z)) : list (Q * Z) :=
  filter (fun h => 0 <= h.2) hits.

(** The accumulators and the log do not depend on what the disk holds. *)
Definition same_progress (st1 st2 : RunState) : Prop :=
  acc_docs st1 = acc_docs st2 /\ acc_embs st1 = acc_embs st2
  /\ st_log st1 = st_log st2.

(** Batch [i] of [docs] has a cleaned text that is not empty. *)
Definition has_texts (docs : list Doc) (i : Z) : Prop :=
  (prepare (batch_of docs i)).1 <> [].

(** The batch indices of the checkpoint artifacts a log wrote, and the
    [next_batch] values it wrote, in order. *)
Definition checkpoint_batches (log : list Event) : list Z :=
  omap (fun ev => match ev with WroteCheckpoint i _ => Some i | _ => None end) log.

Definition info_values (log : list Event) : list Z :=
  omap (fun ev => match ev with WroteInfo n => Some n | _ => None end) log.

(** The info record cannot be read, or the artifact of the batch it
    names is missing or cannot be read. *)
Definition unusable_checkpoint (d : Disk) : Prop :=
  info d = Some InfoUnreadable
  \/ exists nb, info d = Some (InfoRecord nb)
                /\ (ckpts d !! (default 0 nb - 1) = None
                    \/ ckpts d !! (default 0 nb - 1) = Some CkptUnreadable).


(** What [search] relies on from [IndexFlatL2.search]: for [k >= 1] it
    answers with [k] hits; the hits that name a vector name different
    vectors of the index, come by ascending distance, and a squared
    distance is not negative. *)
Record SearchContract : Prop := {
  sc_total : forall idx q k, 1 <= k ->
    exists hits, index_search idx q k = Some hits /\ length hits = Z.to_nat k;
  sc_labels : forall idx q k hits, index_search idx q k = Some hits ->
    NoDup (valid_hits hits).*2
    /\ Forall (fun h => h.2 < Z.of_nat (ntotal idx)) hits;
  sc_sorted : forall idx q k hits, index_search idx q k = Some hits ->
    Sorted (fun a b => a.1 <= b.1)%Q (valid_hits hits);
  sc_nonneg : forall idx q k hits, index_search idx q k = Some hits ->
    Forall (fun h => 0 <= h.1)%Q (valid_hits hits)
}.

(** What [save] and [load] rely on from [faiss.serialize_index] and
    [faiss.deserialize_index]: a serialized index is read back as an
    index with the same vectors, one that answers every search alike. *)
Record SerializeContract : Prop := {
  ser_roundtrip : forall idx,
    exists idx', deserialize_index (serialize_index idx) = Some idx'
                 /\ ntotal idx' = ntotal idx
                 /\ forall q k, index_search idx' q k = index_search idx q k
}.

End VectorStore.
End Store.

(** ** Further notions for the normalizer and the store *)

Module Shape.
Import Text.

(** A code point that [clean_text] turns into, or treats as, white
    space: a whitespace code point, NUL, or one of [[\x01-\x1F\x7F]]. *)
Definition is_blank (c : N) : bool := is_space c || is_control c.

(** The code points of a text that are not blank, in order. *)
Definition visible (t : list N) : list N :=
  filter (fun c => is_blank c = false) t.

(** No two neighbours of a text are both whitespace. *)
Definition no_double_space (t : text) : Prop :=
  forall i c c', t !! i = Some c -> t !! S i = Some c' ->
                 is_space c = true -> is_space c' = false.







End Shape.

Module StoreMore.
Import Text Store.

Local Open Scope Z_scope.

Section Contracts.
Context `{IndexBackend}.

(** [IndexFlatL2.add]: the index holds one vector for every row of the
    stacked embeddings. *)
Record BuildContract : Prop := {
  bc_ntotal : forall es, ntotal (index_build es) = length es
}.

(** [IndexFlatL2.search] fills as many hits as it can: [k] of them, or
    all the vectors of the index when there are fewer. *)
Record AnswerContract : Prop := {
  ac_count : forall idx q k hits, index_search idx q k = Some hits ->
    length (valid_hits hits) = Nat.min (Z.to_nat k) (ntotal idx)
}.

(** The survivors of [docs] from batch [start] up to and including batch
    [i]. *)
Definition survivors_between (docs : list Doc) (start i : Z) : list Doc :=
  filter survives
    (take (Z.to_nat ((i + 1 - start) * BATCH_SIZE))
          (drop (Z.to_nat (start * BATCH_SIZE)) docs)).

Definition embeddings_between (docs : list Doc) (start i : Z) : list Emb :=
  omap embedding_of
    (take (Z.to_nat ((i + 1 - start) * BATCH_SIZE))
          (drop (Z.to_nat (start * BATCH_SIZE)) docs)).

(** The checkpoint directory holds no info record and no artifact. *)
Definition clean_checkpoints (d : Disk) : Prop :=
  info d = None /\ ckpts d = ∅.

(** The artifact that batch [i] leaves in a run that started at batch 0
    with empty accumulators. *)
Definition checkpoint_of (docs : list Doc) (i : Z) : CheckpointData :=
  {| ck_documents := survivors_between docs 0 i;
     ck_embeddings := embeddings_between docs 0 i |}.

(** The loop state at the start of batch [a] in a run that started at
    batch 0 with empty accumulators, on the disk [d]. *)
Definition state_at (docs : list Doc) (a : nat) (d : Disk) : RunState :=
  {| acc_docs := filter survives (take (8 * a) docs);
     acc_embs := omap embedding_of (take (8 * a) docs);
     st_disk := d;
     st_log := [] |}.

(** [query_system] up to the retrieved documents: a new store, [load],
    [search]. *)
Definition retrieve (index_path : string) (question : text) (k : Z) (d : Disk)
  : Error + list SearchResult :=
  match load init index_path d with
  | inl e => inl e
  | inr s => search s question k
  end.

End Contracts.
End StoreMore.

(** ** Loading and chunking (src/pdf_loader.py, src/document_processor.py,
    src/main.py) *)

Module Loader.
Import Text Store.

Local Open Scope Z_scope.

(** One page of a PDF as [page.extract_text()] answers: a text, or an
    exception. *)
Inductive Page :=
  | PageText (t : text)
  | PageFails.

(** The file system and pypdf.  [walk] is [os.walk] (the root and the
    files of every directory); [is_pdf_name f] is
    [f.lower().endswith('.pdf')]; [read_pdf p] is [PdfReader(p)] with
    its pages, [None] when the reader or the walk over its pages
    raises. *)
Class FileSystem := {
  walk : string -> list (string * list string);
  join : string -> string -> string;
  is_pdf_name : string -> bool;
  read_pdf : string -> option (list Page);
  relpath : string -> string -> string;
  dirname : string -> string;
  basename : string -> string
}.

(** [RecursiveCharacterTextSplitter.split_text] *)
Class Splitter := {
  split_text : text -> list text
}.

(** A textbook dictionary of [load_textbooks]. *)
Record Textbook := {
  tb_path : string;
  tb_category : string;
  tb_filename : string;
  tb_content : text
}.

Section Loader.
Context `{FileSystem} `{Splitter} `{IndexBackend}.

(** [PDFLoader.get_all_pdf_paths] *)
Definition get_all_pdf_paths (base_folder : string) : list string :=
  foldl (fun pdf_paths '(root, files) =>
           foldl (fun acc file =>
                    if is_pdf_name file then acc ++ [join root file] else acc)
                 pdf_paths files)
        [] (walk base_folder).

Definition NEWLINE : N := 10%N.

(** The page loop of [extract_text_from_pdf]: a page that fails is
    passed over. *)
Definition add_page (acc : text) (page : Page) : text :=
  match page with
  | PageText page_text => acc ++ (page_text ++ [NEWLINE])
  | PageFails => acc
  end.

(** [PDFLoader.extract_text_from_pdf] *)
Definition extract_text_from_pdf (pdf_path : string) : text :=
  match read_pdf pdf_path with
  | Some pages => foldl add_page [] pages
  | None => []                       (* except Exception: return "" *)
  end.

(** The body of the loop of [load_textbooks] for one path. *)
Definition add_textbook (base_folder : string)
    (textbooks : list Textbook) (pdf_path : string) : list Textbook :=
  let relative_path := relpath pdf_path base_folder in
  let category := dirname relative_path in
  let filename := basename pdf_path in
  match extract_text_from_pdf pdf_path with
  | [] => textbooks
  | text_content =>
      textbooks ++ [{| tb_path := pdf_path; tb_category := category;
                       tb_filename := filename; tb_content := text_content |}]
  end.

(** [PDFLoader.load_textbooks] *)
Definition load_textbooks (base_folder : string) : list Textbook :=
  foldl (add_textbook base_folder) [] (get_all_pdf_paths base_folder).

(** The chunk dictionary that [process_textbooks] appends. *)
Definition chunk_doc (tb : Textbook) (i : nat) (chunk : text) : Doc :=
  {| content := Some (PyStr chunk);
     metadata := {| path := tb_path tb; category := tb_category tb;
                    filename := tb_filename tb; chunk_id := Z.of_nat i |} |}.

(** The inner loop over [enumerate(chunks)], from position [i]. *)
Fixpoint add_chunks (tb : Textbook) (i : nat) (document_chunks : list Doc)
    (chunks : list text) : list Doc :=
  match chunks with
  | [] => document_chunks
  | chunk :: r => add_chunks tb (S i) (document_chunks ++ [chunk_doc tb i chunk]) r
  end.

(** [DocumentProcessor.process_textbooks] *)
Definition process_textbooks (textbooks : list Textbook) : list Doc :=
  foldl (fun document_chunks tb =>
           add_chunks tb 0 document_chunks (split_text (tb_content tb)))
        [] textbooks.

(** [output_path] as [add_documents] tests it: an empty string counts as
    no path. *)
Definition as_output_path (p : string) : option string :=
  match p with
  | EmptyString => None
  | _ => Some p
  end.

(** [build_index] of main.py: load, chunk, and add to a new store. *)
Definition build_index (textbooks_folder output_path : string) (d : Disk)
  : VectorStore * Disk * list Event :=
  let textbooks := load_textbooks textbooks_folder in
  let document_chunks := process_textbooks textbooks in
  add_documents init document_chunks (as_output_path output_path) d.

(** *** Notions the properties are stated with *)

(** What one page adds to the text of its PDF. *)
Definition page_line (page : Page) : text :=
  match page with
  | PageText page_text => page_text ++ [NEWLINE]
  | PageFails => []
  end.

(** The textbook dictionary of a path, when its text is not empty. *)
Definition textbook_of (base_folder pdf_path : string) : option Textbook :=
  match extract_text_from_pdf pdf_path with
  | [] => None
  | text_content =>
      Some {| tb_path := pdf_path;
              tb_category := dirname (relpath pdf_path base_folder);
              tb_filename := basename pdf_path;
              tb_content := text_content |}
  end.

(** The chunks of one textbook. *)
Definition chunks_of (tb : Textbook) : list Doc :=
  imap (chunk_doc tb) (split_text (tb_content tb)).

(** What names a chunk: the path of its PDF and its number there. *)
Definition chunk_key (d : Doc) : string * Z :=
  (path (metadata d), chunk_id (metadata d)).

End Loader.
End Loader.

(** ** A concrete model and index *)

(** An exhaustive flat index over rational vectors, and a small
    deterministic model, on which the statements above can be run. *)
Module Flat.
Import Text Store.

Local Open Scope Z_scope.

Definition vec := list Q.

(** Squared Euclidean distance. *)
Fixpoint dist2 (x y : vec) : Q :=
  match x, y with
  | a :: x', b :: y' => ((a - b) * (a - b) + dist2 x' y')%Q
  | _, _ => 0%Q
  end.

Definition by_distance (a b : Q * Z) : Prop := (a.1 <= b.1)%Q.

#[global] Instance by_distance_dec : RelDecision by_distance.
Proof.
  intros a b. unfold by_distance, Qle. apply Z_le_dec.
Defined.

(** The distance faiss leaves in a slot it could not fill: the largest
    float32. *)
Definition PAD_DISTANCE : Q := 340282346638528859811704183484516925440 # 1.

(** Every stored vector with its distance to the query and its label. *)
Definition scored (xb : list vec) (q : vec) : list (Q * Z) :=
  zip (dist2 q <$> xb) (seqZ 0 (Z.of_nat (length xb))).

(** The [k] nearest vectors, nearest first. *)
Definition ranked (xb : list vec) (q : vec) (k : Z) : list (Q * Z) :=
  take (Z.to_nat k) (merge_sort by_distance (scored xb q)).

(** [search] refuses [k < 1]; it fills an answer shorter than [k] with
    label -1. *)
Definition flat_search (xb : list vec) (q : vec) (k : Z) : option (list (Q * Z)) :=
  if k <? 1 then None
  else
    Some (ranked xb q k
          ++ replicate (Z.to_nat k - length (ranked xb q k)) (PAD_DISTANCE, -1)).

(** A model that refuses every text with an exclamation mark, and maps
    the others to two coordinates: the length and the sum of the code
    points. *)
Definition toy_encode (t : text) : option vec :=
  if bool_decide (33%N ∈ t) then None
  else Some [inject_Z (Z.of_nat (length t));
             inject_Z (Z.of_N (foldr N.add 0%N t))].

#[global] Instance toy_embedder : Embedder :=
  {| Emb := vec; encode := toy_encode |}.

#[global] Instance flat_backend : IndexBackend :=
  {| Index := list vec;
     Blob := list vec;
     index_build := fun es => es;
     ntotal := fun xb => length xb;
     index_search := flat_search;
     serialize_index := fun xb => xb;
     deserialize_index := fun b => Some b |}.

Definition mk_doc (s : string) (i : Z) : Doc :=
  {| content := Some (PyStr (of_string s));
     metadata := {| path := "books/a.pdf"; category := "books";
                    filename := "a.pdf"; chunk_id := i |} |}.

(** *** Sample inputs *)

Definition hello (i : Z) : Doc := mk_doc "hello world" i.
Definition blank (i : Z) : Doc := mk_doc "   " i.
Definition shout (i : Z) : Doc := mk_doc "stop!" i.

(** Seventeen chunks: a batch of text, a batch of blank pages, one more
    chunk of text. *)
Definition three_batches : list Doc :=
  (hello <$> seqZ 0 8) ++ (blank <$> seqZ 8 8) ++ [hello 16].

(** Twelve chunks; in the second batch the model refuses one chunk and
    one chunk is blank. *)
Definition mixed : list Doc :=
  (hello <$> seqZ 0 8) ++ [hello 8; shout 9; blank 10; hello 11].

(** The embedding the model gives for [hello]. *)
Definition hello_vec : vec := [inject_Z 11; inject_Z 1116].

(** The artifact of the first batch of both inputs. *)
Definition first_checkpoint : CheckpointData :=
  {| ck_documents := hello <$> seqZ 0 8;
     ck_embeddings := replicate 8 hello_vec |}.

(** The disk of the scenario: [next_batch = 2], and no artifact for
    batch 1. *)
Definition stale_disk : Disk :=
  {| info := Some (InfoRecord (Some 2));
     ckpts := {[ 0 := CkptData first_checkpoint ]};
     stores := ∅ |}.

(** The disk after the first batch: [next_batch = 1] and its artifact. *)
Definition resumable_disk : Disk :=
  {| info := Some (InfoRecord (Some 1));
     ckpts := {[ 0 := CkptData first_checkpoint ]};
     stores := ∅ |}.

(** A store of three documents and three vectors of the plane. *)
Definition demo_index : list vec :=
  [[inject_Z 1; inject_Z 0]; [inject_Z 0; inject_Z 0]; [inject_Z 3; inject_Z 4]].

Definition demo_store : VectorStore :=
  {| index := Some demo_index;
     documents := [hello 0; shout 1; hello 2];
     embeddings := None |}.

End Flat.

(** ** A small folder of books *)

(** A file system and a splitter on which the loading statements can be
    run, with the model and the index of [Flat]. *)
Module Sample.
Import Text Store Loader Flat.

Definition lower_ascii (a : ascii) : ascii :=
  let n := nat_of_ascii a in
  if (Nat.leb 65 n && Nat.leb n 90)%bool then ascii_of_nat (n + 32) else a.

Fixpoint lower (s : string) : string :=
  match s with
  | EmptyString => EmptyString
  | String a r => String (lower_ascii a) (lower r)
  end.

(** [file.lower().endswith('.pdf')] on an ASCII name. *)
Definition ends_with_pdf (s : string) : bool :=
  String.eqb (substring (String.length s - 4) 4 (lower s)) ".pdf".

(** The directory part, if the path has a slash, and the last
    component. *)
Fixpoint split_path (s : string) : option string * string :=
  match s with
  | EmptyString => (None, EmptyString)
  | String a r =>
      match split_path r with
      | (Some d, b) => (Some (String a d), b)
      | (None, b) =>
          if Ascii.eqb a "/"%char then (Some EmptyString, b) else (None, String a b)
      end
  end.

(** The path below [base], for a path that is under it. *)
Definition below (p base : string) : string :=
  substring (String.length base + 1)
            (String.length p - String.length base - 1) p.

(** Two readable books, one of which has a page that fails; a file
    that is no PDF; a PDF that cannot be opened; a PDF none of whose
    pages can be read. *)
Definition sample_walk (base : string) : list (string * list string) :=
  if String.eqb base "books"
  then [("books", ["a.pdf"; "notes.txt"; "c.pdf"]);
        ("books/old", ["B.PDF"; "d.pdf"])]
  else [].

Definition sample_read (p : string) : option (list Page) :=
  if String.eqb p "books/a.pdf"
  then Some [PageText (of_string "hello world"); PageFails;
             PageText (of_string "stop!")]
  else if String.eqb p "books/old/B.PDF"
  then Some [PageText (of_string "second book")]
  else if String.eqb p "books/old/d.pdf"
  then Some [PageFails; PageFails]
  else None.

#[global] Instance sample_fs : FileSystem :=
  {| walk := sample_walk;
     join := fun root file => String.append root (String.append "/" file);
     is_pdf_name := ends_with_pdf;
     read_pdf := sample_read;
     relpath := below;
     dirname := fun p => default EmptyString (split_path p).1;
     basename := fun p => (split_path p).2 |}.

(** A splitter that cuts at every newline. *)
Fixpoint split_lines_from (cur : text) (t : text) : list text :=
  match t with
  | [] => match cur with [] => [] | _ => [cur] end
  | c :: r =>
      if N.eqb c NEWLINE then cur :: split_lines_from [] r
      else split_lines_from (cur ++ [c]) r
  end.

#[global] Instance line_splitter : Splitter :=
  {| split_text := split_lines_from [] |}.

(** The two textbooks of the folder. *)
Definition book_a : Textbook :=
  {| tb_path := "books/a.pdf"; tb_category := ""; tb_filename := "a.pdf";
     tb_content := of_string "hello world" ++ [NEWLINE]
                   ++ of_string "stop!" ++ [NEWLINE] |}.

Definition book_b : Textbook :=
  {| tb_path := "books/old/B.PDF"; tb_category := "old"; tb_filename := "B.PDF";
     tb_content := of_string "second book" ++ [NEWLINE] |}.

(** A control character, a run of blanks, a no-break space: a text
    whose visible code points are those of "ab". *)
Definition untidy : text := [7; 97; 32; 160; 9; 98; 0; 10]%N.

(** A store whose index holds three vectors but whose list of documents
    holds one. *)
Definition lagging_store : VectorStore :=
  {| index := Some demo_index; documents := [hello 0]; embeddings := None |}.

(** The vector the model gives for "query", and what the index of
    three vectors answers when asked for its five nearest. *)
Definition query_vec : vec := [inject_Z 5; inject_Z 566].

Definition query_hits : list (Q * Z) :=
  default [] (flat_search demo_index query_vec 5).

(** Two chunks that get no embedding: a blank one, and one the model
    refuses. *)
Definition hopeless : list Doc := [blank 0; shout 1].

End Sample.
Module TextFacts.
Import Text.

Lemma is_space_SPACE : is_space SPACE = true.
Proof. reflexivity. Qed.

Lemma is_control_SPACE : is_control SPACE = false.
Proof. reflexivity. Qed.

Lemma spaced_cons b c r :
  spaced b (c :: r) =
  if is_space c then c = SPACE /\ b = false /\ spaced true r
  else spaced false r.
Proof. reflexivity. Qed.

Lemma spaced_weaken b t : spaced b t -> spaced false t.
Proof.
  destruct t as [|c r]; simpl; [done|].
  destruct (is_space c); [|done].
  intros (? & ? & ?); auto.
Qed.

Lemma spaced_sub_ws_from b t : spaced b (sub_ws_from b t).
Proof.
  revert b; induction t as [|c r IH]; intros b; simpl; [done|].
  destruct (is_space c) eqn:Hc.
  - destruct b; [apply IH|].
    rewrite spaced_cons, is_space_SPACE. by repeat split.
  - rewrite spaced_cons, Hc. apply IH.
Qed.

Lemma sub_ws_from_fixed b t : spaced b t -> sub_ws_from b t = t.
Proof.
  revert b; induction t as [|c r IH]; intros b; simpl; [done|].
  destruct (is_space c) eqn:Hc.
  - intros (-> & -> & Hr). by rewrite (IH true Hr).
  - intros Hr. by rewrite (IH false Hr).
Qed.

Lemma spaced_take b n t : spaced b t -> spaced b (take n t).
Proof.
  revert b n; induction t as [|c r IH]; intros b [|n]; simpl; try done.
  destruct (is_space c).
  - intros (? & ? & ?); auto.
  - apply IH.
Qed.

Lemma spaced_truncate b t : spaced b t -> spaced b (truncate t).
Proof.
  unfold truncate. destruct (Nat.ltb _ _); [apply spaced_take|done].
Qed.

Lemma spaced_lstrip b t : spaced b t -> spaced false (lstrip t).
Proof.
  revert b; induction t as [|c r IH]; intros b; simpl; [done|].
  destruct (is_space c) eqn:Hc.
  - intros (_ & _ & Hr). by apply (IH true).
  - intros Hr. simpl. by rewrite Hc.
Qed.

Lemma spaced_rstrip b t : spaced b t -> spaced b (rstrip t).
Proof.
  revert b; induction t as [|c r IH]; intros b; simpl; [done|].
  destruct (is_space c) eqn:Hc.
  - intros (-> & -> & Hr). specialize (IH true Hr).
    destruct (rstrip r) as [|d r']; [done|].
    rewrite spaced_cons, is_space_SPACE. by repeat split.
  - intros Hr. specialize (IH false Hr).
    destruct (rstrip r) as [|d r']; rewrite spaced_cons, Hc; [done|exact IH].
Qed.

Lemma starts_clean_lstrip t : starts_clean (lstrip t).
Proof.
  induction t as [|c r IH]; simpl; [done|].
  destruct (is_space c) eqn:Hc; [done|]. by simpl.
Qed.

Lemma starts_clean_rstrip t : starts_clean t -> starts_clean (rstrip t).
Proof.
  destruct t as [|c r]; simpl; [done|]. intros Hc.
  destruct (rstrip r); rewrite ?Hc; done.
Qed.

Lemma lstrip_fixed t : starts_clean t -> lstrip t = t.
Proof. destruct t as [|c r]; simpl; [done|]. by intros ->. Qed.

Lemma rstrip_idem t : rstrip (rstrip t) = rstrip t.
Proof.
  induction t as [|c r IH]; simpl; [done|].
  destruct (rstrip r) as [|d r'] eqn:Hr.
  - destruct (is_space c) eqn:Hc; simpl; [done|]. by rewrite Hc.
  - change (rstrip (c :: d :: r')) with
      (match rstrip (d :: r') with
       | [] => if is_space c then [] else [c]
       | x => c :: x
       end).
    by rewrite IH.
Qed.

Lemma strip_fixed_on_strip t : strip (strip t) = strip t.
Proof.
  unfold strip.
  rewrite (lstrip_fixed (rstrip (lstrip t))).
  - apply rstrip_idem.
  - apply starts_clean_rstrip, starts_clean_lstrip.
Qed.

Lemma length_lstrip t : (length (lstrip t) <= length t)%nat.
Proof.
  induction t as [|c r IH]; simpl; [lia|].
  destruct (is_space c); simpl; lia.
Qed.

Lemma length_rstrip t : (length (rstrip t) <= length t)%nat.
Proof.
  induction t as [|c r IH]; simpl; [lia|].
  destruct (rstrip r); [destruct (is_space c)|]; simpl in *; lia.
Qed.

Lemma length_truncate t : (length (truncate t) <= MAX_LEN)%nat.
Proof.
  unfold truncate. destruct (Nat.ltb MAX_LEN (length t)) eqn:H.
  - rewrite length_take. lia.
  - apply Nat.ltb_ge in H. lia.
Qed.

Lemma truncate_fixed t : (length t <= MAX_LEN)%nat -> truncate t = t.
Proof.
  intros H. unfold truncate.
  destruct (Nat.ltb MAX_LEN (length t)) eqn:E; [|done].
  apply Nat.ltb_lt in E. lia.
Qed.

Lemma no_control_map_nul_ctrl t : no_control (sub_ctrl (replace_nul t)).
Proof.
  unfold no_control, sub_ctrl, replace_nul.
  rewrite map_map. apply Forall_map, Forall_forall. intros c _. simpl.
  destruct (c =? 0) eqn:H0; [reflexivity|].
  destruct (in_ctrl_class c) eqn:H1; [reflexivity|].
  unfold is_control. by rewrite H0, H1.
Qed.

Lemma no_control_sub_ws_from b t : no_control t -> no_control (sub_ws_from b t).
Proof.
  unfold no_control. intros H; revert b.
  induction H as [|c r Hc Hr IH]; intros b; simpl; [constructor|].
  destruct (is_space c).
  - destruct b; [apply IH|]. constructor; [reflexivity|apply IH].
  - constructor; [done|apply IH].
Qed.

Lemma no_control_take n t : no_control t -> no_control (take n t).
Proof. apply Forall_take. Qed.

Lemma no_control_truncate t : no_control t -> no_control (truncate t).
Proof.
  unfold truncate. destruct (Nat.ltb _ _); [apply no_control_take|done].
Qed.

Lemma no_control_lstrip t : no_control t -> no_control (lstrip t).
Proof.
  unfold no_control. induction 1 as [|c r Hc Hr IH]; simpl; [constructor|].
  destruct (is_space c); [done|by constructor].
Qed.

Lemma no_control_rstrip t : no_control t -> no_control (rstrip t).
Proof.
  unfold no_control. induction 1 as [|c r Hc Hr IH]; simpl; [constructor|].
  destruct (rstrip r).
  - destruct (is_space c); by repeat constructor.
  - by constructor.
Qed.

Lemma no_control_fixed t :
  no_control t -> sub_ctrl (replace_nul t) = t.
Proof.
  unfold no_control, sub_ctrl, replace_nul. rewrite map_map.
  induction 1 as [|c r Hc Hr IH]; simpl; [done|].
  rewrite IH. f_equal.
  unfold is_control in Hc. apply orb_false_iff in Hc as [H0 H1].
  by rewrite H0, H1.
Qed.

Lemma clean_str_normalized t : normalized (clean_str t).
Proof.
  unfold clean_str. split.
  - apply no_control_rstrip, no_control_lstrip, no_control_truncate,
      no_control_sub_ws_from, no_control_map_nul_ctrl.
  - unfold strip. apply spaced_rstrip, (spaced_lstrip false), spaced_truncate,
      spaced_sub_ws_from.
  - unfold strip.
    etrans; [apply length_rstrip|]. etrans; [apply length_lstrip|].
    apply length_truncate.
  - apply strip_fixed_on_strip.
Qed.

Lemma normalized_fixed t : normalized t -> clean_str t = t.
Proof.
  intros [Hc Hs Hl Hst]. unfold clean_str.
  rewrite (no_control_fixed t Hc).
  unfold sub_ws. rewrite (sub_ws_from_fixed false t Hs).
  by rewrite (truncate_fixed t Hl).
Qed.


Lemma replace_steps_pointwise t :
  sub_ctrl (replace_nul t) = map (fun c => if is_control c then SPACE else c) t.
Proof.
  unfold sub_ctrl, replace_nul. rewrite map_map. apply map_ext. intros c.
  unfold is_control. destruct (c =? 0) eqn:H0; [reflexivity|]. reflexivity.
Qed.


Lemma MAX_LEN_value : N.of_nat MAX_LEN = 10000.
Proof. unfold MAX_LEN. apply N2Nat.id. Qed.

Lemma clean_text_normalized v : normalized (clean_text v).
Proof.
  destruct v as [t|]; [apply clean_str_normalized|].
  split; try done; [constructor | simpl; lia].
Qed.

(** *** The normalizer on small inputs *)

Example clean_text_collapses :
  clean_text (PyStr (of_string "  two   words ")) = of_string "two words".
Proof. reflexivity. Qed.

Example clean_text_controls :
  clean_text (PyStr [65; 0; 7; 66; 127; 10; 67]) = [65; 32; 66; 32; 67].
Proof. reflexivity. Qed.

Example clean_text_unicode_space :
  clean_text (PyStr [65; 160; 8195; 66; 12288]) = [65; 32; 66].
Proof. reflexivity. Qed.

Example clean_text_not_a_string : clean_text PyOther = [].
Proof. reflexivity. Qed.

(** Code points above U+007F that are not whitespace are outside the two
    replaced classes and stay: here U+0080 and U+00E9. *)
Example clean_text_above_ascii : clean_text (PyStr [128; 233]) = [128; 233].
Proof. reflexivity. Qed.

End TextFacts.

(** ** More facts about the normalizer *)

Module ShapeFacts.
Import Text TextFacts Shape.

Lemma is_blank_of_space c : is_space c = true -> is_blank c = true.
Proof. unfold is_blank. by intros ->. Qed.

Lemma is_blank_SPACE : is_blank SPACE = true.
Proof. reflexivity. Qed.

Lemma MAX_LEN_large : (2 <= MAX_LEN)%nat.
Proof. pose proof MAX_LEN_value. lia. Qed.

(** *** Whitespace in a spaced text *)

Lemma spaced_space_is_SPACE b t :
  spaced b t -> Forall (fun c => is_space c = true -> c = SPACE) t.
Proof.
  revert b; induction t as [|c r IH]; intros b; [constructor|].
  rewrite spaced_cons. destruct (is_space c) eqn:Hc.
  - intros (-> & _ & Hr). constructor; [done|]. by apply (IH true).
  - intros Hr. constructor; [congruence|]. by apply (IH false).
Qed.

Lemma spaced_no_double_space b t : spaced b t -> no_double_space t.
Proof.
  revert b; induction t as [|c r IH]; intros b Hs i x y Hx Hy Hsp; [done|].
  rewrite spaced_cons in Hs. destruct i as [|i]; simpl in Hx, Hy.
  - injection Hx as ->. rewrite Hsp in Hs. destruct Hs as (_ & _ & Hr).
    destruct r as [|z r]; [done|]. simpl in Hy. injection Hy as ->.
    rewrite spaced_cons in Hr. destruct (is_space y); [|done].
    by destruct Hr as (_ & ? & _).
  - destruct (is_space c).
    + destruct Hs as (_ & _ & Hr). by apply (IH true Hr i x y).
    + by apply (IH false Hs i x y).
Qed.

Lemma spaced_all_space_short b t :
  spaced b t -> Forall (fun c => is_space c = true) t -> (length t <= 1)%nat.
Proof.
  destruct t as [|c [|c' r]]; intros Hs Hall; [simpl; lia..|]. exfalso.
  apply Forall_cons in Hall as [Hc Hall]. apply Forall_cons in Hall as [Hc' _].
  pose proof (spaced_no_double_space b _ Hs 0%nat c c' eq_refl eq_refl Hc).
  congruence.
Qed.

(** *** Stripping *)

Lemma lstrip_all_space t : Forall (fun c => is_space c = true) t -> lstrip t = [].
Proof. induction 1 as [|c r Hc Hr IH]; simpl; [done|]. by rewrite Hc. Qed.

Lemma lstrip_all_space_inv t :
  Forall (fun c => is_space c = true) (lstrip t) ->
  Forall (fun c => is_space c = true) t.
Proof.
  induction t as [|c r IH]; simpl; [done|].
  destruct (is_space c) eqn:Hc; [|done].
  intros Hr. constructor; auto.
Qed.

Lemma rstrip_nil_inv t : rstrip t = [] -> Forall (fun c => is_space c = true) t.
Proof.
  induction t as [|c r IH]; simpl; [constructor|].
  destruct (rstrip r) as [|d r'] eqn:Hr; [|done].
  destruct (is_space c) eqn:Hc; [|done].
  intros _. constructor; auto.
Qed.

Lemma strip_nil_iff t : strip t = [] <-> Forall (fun c => is_space c = true) t.
Proof.
  unfold strip. split.
  - intros E. by apply lstrip_all_space_inv, rstrip_nil_inv.
  - intros Hall. by rewrite lstrip_all_space.
Qed.

Lemma strip_fixed_parts t : strip t = t -> lstrip t = t /\ rstrip t = t.
Proof.
  intros E. assert (Hl : lstrip t = t).
  { apply lstrip_fixed. rewrite <- E. unfold strip.
    apply starts_clean_rstrip, starts_clean_lstrip. }
  split; [done|]. unfold strip in E. by rewrite Hl in E.
Qed.

Lemma rstrip_fixed_last t c :
  rstrip t = t -> last t = Some c -> is_space c = false.
Proof.
  revert c; induction t as [|x r IH]; intros c; [done|].
  simpl rstrip. destruct r as [|y r].
  - simpl. intros E [= <-]. by destruct (is_space x).
  - destruct (rstrip (y :: r)) as [|z r'] eqn:Hr.
    + by destruct (is_space x).
    + intros [= E1 E2] Hlast. apply IH; [by rewrite E1, E2|].
      by rewrite last_cons_cons in Hlast.
Qed.

(** *** The visible code points *)

Lemma visible_cons c t :
  visible (c :: t) = if is_blank c then visible t else c :: visible t.
Proof.
  unfold visible. rewrite filter_cons.
  destruct (is_blank c); [by rewrite decide_False|by rewrite decide_True].
Qed.

Lemma visible_replaced t : visible (sub_ctrl (replace_nul t)) = visible t.
Proof.
  rewrite replace_steps_pointwise.
  induction t as [|c r IH]; [done|]. simpl map. rewrite !visible_cons, IH.
  destruct (is_control c) eqn:Hc; [|done].
  rewrite is_blank_SPACE. unfold is_blank. rewrite Hc. by rewrite orb_true_r.
Qed.

Lemma visible_sub_ws_from b t : visible (sub_ws_from b t) = visible t.
Proof.
  revert b; induction t as [|c r IH]; intros b; [done|]. simpl sub_ws_from.
  rewrite (visible_cons c r). destruct (is_space c) eqn:Hc.
  - rewrite (is_blank_of_space c Hc).
    destruct b; [apply IH|]. by rewrite visible_cons, is_blank_SPACE, IH.
  - by rewrite visible_cons, IH.
Qed.

Lemma visible_take n t : visible (take n t) `prefix_of` visible t.
Proof.
  exists (visible (drop n t)). unfold visible.
  by rewrite <- filter_app, take_drop.
Qed.

Lemma visible_truncate t : visible (truncate t) `prefix_of` visible t.
Proof.
  unfold truncate. destruct (Nat.ltb _ _); [apply visible_take|done].
Qed.

Lemma visible_lstrip t : visible (lstrip t) = visible t.
Proof.
  induction t as [|c r IH]; [done|]. simpl lstrip.
  destruct (is_space c) eqn:Hc; [|done].
  by rewrite visible_cons, (is_blank_of_space c Hc).
Qed.

Lemma visible_rstrip t : visible (rstrip t) = visible t.
Proof.
  induction t as [|c r IH]; [done|]. simpl rstrip.
  rewrite (visible_cons c r), <- IH.
  destruct (rstrip r) as [|d r'].
  - destruct (is_space c) eqn:Hc.
    + by rewrite (is_blank_of_space c Hc).
    + by rewrite visible_cons.
  - by rewrite visible_cons.
Qed.

Lemma visible_nil_iff t : visible t = [] <-> Forall (fun c => is_blank c = true) t.
Proof.
  induction t as [|c r IH]; [by split; [constructor|]|].
  rewrite visible_cons, Forall_cons. destruct (is_blank c); [|by split; [|intros []]].
  rewrite IH. tauto.
Qed.

(** *** Lengths *)

Lemma length_sub_ws_from b t : (length (sub_ws_from b t) <= length t)%nat.
Proof.
  revert b; induction t as [|c r IH]; intros b; simpl; [lia|].
  destruct (is_space c); [destruct b|]; simpl;
    [specialize (IH true)|specialize (IH true)|specialize (IH false)]; lia.
Qed.

Lemma length_replaced t : length (sub_ctrl (replace_nul t)) = length t.
Proof. unfold sub_ctrl, replace_nul. by rewrite !length_map. Qed.

Lemma length_truncate_le t : (length (truncate t) <= length t)%nat.
Proof.
  unfold truncate. destruct (Nat.ltb _ _); [rewrite length_take|]; lia.
Qed.

Lemma length_strip t : (length (strip t) <= length t)%nat.
Proof.
  unfold strip. etrans; [apply length_rstrip|apply length_lstrip].
Qed.

Lemma length_clean_str t : (length (clean_str t) <= length t)%nat.
Proof.
  unfold clean_str. etrans; [apply length_strip|].
  etrans; [apply length_truncate_le|]. unfold sub_ws.
  etrans; [apply length_sub_ws_from|]. by rewrite length_replaced.
Qed.

(** *** When the output is empty *)

Lemma replaced_all_space t :
  Forall (fun c => is_blank c = true) t ->
  Forall (fun c => is_space c = true) (sub_ctrl (replace_nul t)).
Proof.
  rewrite replace_steps_pointwise. intros Hall. apply Forall_map.
  eapply Forall_impl; [exact Hall|]. intros c Hb. simpl.
  destruct (is_control c) eqn:Hc; [reflexivity|].
  unfold is_blank in Hb. rewrite Hc, orb_false_r in Hb. done.
Qed.

Lemma sub_ws_from_all_space b t :
  Forall (fun c => is_space c = true) t ->
  Forall (fun c => is_space c = true) (sub_ws_from b t).
Proof.
  intros Hall; revert b.
  induction Hall as [|c r Hc Hr IH]; intros b; simpl; [constructor|].
  rewrite Hc. destruct b; [apply IH|]. constructor; [reflexivity|apply IH].
Qed.

Lemma clean_str_nil_iff t :
  clean_str t = [] <-> Forall (fun c => is_blank c = true) t.
Proof.
  unfold clean_str. rewrite strip_nil_iff. split.
  - intros Hall. apply visible_nil_iff.
    set (w := sub_ws (sub_ctrl (replace_nul t))) in *.
    assert (Hw : visible w = visible t)
      by (unfold w, sub_ws; by rewrite visible_sub_ws_from, visible_replaced).
    rewrite <- Hw. apply visible_nil_iff.
    assert (Hsp : spaced false w) by apply spaced_sub_ws_from.
    unfold truncate in Hall.
    destruct (Nat.ltb MAX_LEN (length w)) eqn:E.
    + apply Nat.ltb_lt in E. exfalso.
      pose proof (spaced_all_space_short false _ (spaced_take false MAX_LEN w Hsp) Hall) as Hshort.
      rewrite length_take in Hshort. pose proof MAX_LEN_large. lia.
    + eapply Forall_impl; [exact Hall|]. apply is_blank_of_space.
  - intros Hall. unfold truncate.
    assert (Hw : Forall (fun c => is_space c = true)
                        (sub_ws (sub_ctrl (replace_nul t))))
      by (by apply sub_ws_from_all_space, replaced_all_space).
    destruct (Nat.ltb _ _); [by apply Forall_take|done].
Qed.

Lemma clean_str_visible_prefix t : visible (clean_str t) `prefix_of` visible t.
Proof.
  unfold clean_str, strip. rewrite visible_rstrip, visible_lstrip.
  etrans; [apply visible_truncate|].
  unfold sub_ws. by rewrite visible_sub_ws_from, visible_replaced.
Qed.

Lemma clean_str_visible_short t :
  (length t <= MAX_LEN)%nat -> visible (clean_str t) = visible t.
Proof.
  intros Hlen. unfold clean_str, strip.
  rewrite visible_rstrip, visible_lstrip, truncate_fixed.
  - unfold sub_ws. by rewrite visible_sub_ws_from, visible_replaced.
  - unfold sub_ws. etrans; [apply length_sub_ws_from|].
    by rewrite length_replaced.
Qed.

(** The whitespace of a normalized text: none at either end, only
    U+0020, never two in a row. *)
Lemma normalized_shape t :
  normalized t ->
  starts_clean t
  /\ (forall c, last t = Some c -> is_space c = false)
  /\ Forall (fun c => is_space c = true -> c = SPACE) t
  /\ no_double_space t.
Proof.
  intros [_ Hsp _ Hst]. destruct (strip_fixed_parts t Hst) as [Hl Hr].
  split; [rewrite <- Hl; apply starts_clean_lstrip|].
  split; [intros c; by apply rstrip_fixed_last|].
  split; [by eapply spaced_space_is_SPACE|by eapply spaced_no_double_space].
Qed.

(** *** The output as words joined by spaces *)



















End ShapeFacts.

(** ** Facts about the batch loop *)

Module StoreFacts.
Import Text TextFacts Store.

Local Open Scope Z_scope.

Section Facts.
Context `{IndexBackend}.

Lemma prepare_from_length i l :
  length (prepare_from i l).1 = length (prepare_from i l).2.
Proof.
  revert i; induction l as [|d r IH]; intros i; simpl; [done|].
  specialize (IH (S i)). destruct (prepare_from (S i) r) as [ts ixs].
  destruct (content d) as [v|]; [|done].
  destruct (clean_text v); simpl in *; [done|by f_equal].
Qed.

Lemma prepare_from_texts i l : (prepare_from i l).1 = omap usable l.
Proof.
  revert i; induction l as [|d r IH]; intros i; simpl; [done|].
  specialize (IH (S i)). destruct (prepare_from (S i) r) as [ts ixs].
  unfold usable at 1. destruct (content d) as [v|]; [|done].
  destruct (clean_text v); simpl in *; [done|by f_equal].
Qed.

Lemma prepare_from_cons i d r :
  prepare_from i (d :: r)
  = match usable d with
    | Some t => (t :: (prepare_from (S i) r).1, i :: (prepare_from (S i) r).2)
    | None => prepare_from (S i) r
    end.
Proof.
  simpl. destruct (prepare_from (S i) r) as [ts ixs]. unfold usable.
  destruct (content d) as [v|]; [|done]. by destruct (clean_text v).
Qed.

Lemma survives_iff d : survives d <-> exists e, embedding_of d = Some e.
Proof. done. Qed.

(** The innermost loop over all prepared items of a batch keeps exactly
    the surviving documents, in order. *)
Lemma embed_items_prepared pre l acc :
  foldl (embed_item (pre ++ l)) acc
        (zip (prepare_from (length pre) l).1 (prepare_from (length pre) l).2)
  = (acc.1 ++ filter survives l, acc.2 ++ omap embedding_of l).
Proof.
  revert pre acc; induction l as [|d r IH]; intros pre acc.
  - destruct acc; simpl. by rewrite !app_nil_r.
  - specialize (IH (pre ++ [d])).
    rewrite length_app, Nat.add_1_r, <- app_assoc in IH. simpl in IH.
    rewrite prepare_from_cons, filter_cons. cbn [omap list_omap].
    assert (Hemb : embedding_of d = usable d ≫= encode) by done.
    destruct (usable d) as [t|] eqn:Hu; simpl in Hemb.
    + cbn [fst snd zip zip_with foldl embed_item].
      destruct acc as [sd se]. cbn [embed_item].
      rewrite list_lookup_middle by done.
      destruct (encode t) as [e|] eqn:He; rewrite IH; simpl.
      * rewrite decide_True by (apply survives_iff; eauto).
        rewrite Hemb. by rewrite <- !app_assoc.
      * rewrite decide_False by (rewrite survives_iff, Hemb; by intros [? ?]).
        by rewrite Hemb.
    + rewrite IH.
      rewrite decide_False by (rewrite survives_iff, Hemb; by intros [? ?]).
      by rewrite Hemb.
Qed.

Lemma take_min_length {A} (l : list A) (a : nat) :
  take (Nat.min a (length l)) l = take a l.
Proof.
  destruct (decide (a ≤ length l)%nat).
  - by rewrite Nat.min_l.
  - rewrite Nat.min_r by lia. by rewrite !take_ge by lia.
Qed.

(** Folding chunk by chunk over [range_step] is folding over the list. *)
Lemma foldl_chunks {A B} (f : B -> A -> B) (l : list A) (step : nat) (b : B) :
  (0 < step)%nat ->
  foldl (fun acc s =>
           foldl f acc (slice l s (Nat.min (s + step) (length l))))
        b (range_step (length l) step)
  = foldl f b l.
Proof.
  intros Hstep. unfold range_step.
  assert (Hpre : forall m,
    foldl (fun acc s =>
             foldl f acc (slice l s (Nat.min (s + step) (length l))))
          b ((fun j => (j * step)%nat) <$> seq 0 m)
    = foldl f b (take (m * step) l)).
  { induction m as [|m IH]; [done|].
    rewrite seq_S, fmap_app, foldl_app, IH. simpl.
    rewrite <- foldl_app. f_equal. unfold slice.
    destruct (decide (m * step ≤ length l)%nat).
    - rewrite take_take_drop.
      replace (m * step + (Nat.min (m * step + step) (length l) - m * step))%nat
        with (Nat.min (m * step + step) (length l)) by lia.
      rewrite take_min_length. f_equal. lia.
    - rewrite Nat.min_r by lia.
      replace (length l - m * step)%nat with 0%nat by lia.
      rewrite take_0, app_nil_r, !take_ge by lia. done. }
  rewrite Hpre, take_ge; [done|].
  pose proof (Nat.div_mod_eq (length l + step - 1) step) as E.
  pose proof (Nat.mod_upper_bound (length l + step - 1) step ltac:(lia)).
  nia.
Qed.

Lemma foldl_pointwise {A B} (f g : B -> A -> B) (l : list A) (b : B) :
  (forall acc x, f acc x = g acc x) -> foldl f b l = foldl g b l.
Proof.
  intros E. revert b; induction l as [|x l IH]; intros b; simpl; [done|].
  by rewrite E, IH.
Qed.

Lemma zip_slice {A B} (l : list A) (k : list B) a b :
  zip (slice l a b) (slice k a b) = slice (zip l k) a b.
Proof. unfold slice. by rewrite zip_with_drop, zip_with_take. Qed.

(** The sub-batches of a batch visit every prepared item once, in order. *)
Lemma embed_batch_items bd (ts : list text) (ixs : list nat) :
  length ts = length ixs ->
  embed_batch bd ts ixs = foldl (embed_item bd) ([], []) (zip ts ixs).
Proof.
  intros Hlen. unfold embed_batch.
  rewrite <- (foldl_chunks (embed_item bd) (zip ts ixs) SUB_BATCH_SIZE)
    by (unfold SUB_BATCH_SIZE; lia).
  rewrite length_zip, <- Hlen, Nat.min_id.
  apply foldl_pointwise. intros acc s. unfold embed_sub_batch.
  by rewrite zip_slice.
Qed.

Lemma embed_batch_prepared bd :
  embed_batch bd (prepare bd).1 (prepare bd).2
  = (filter survives bd, omap embedding_of bd).
Proof.
  unfold prepare. rewrite embed_batch_items by apply prepare_from_length.
  exact (embed_items_prepared [] bd ([], [])).
Qed.

Lemma no_texts_no_survivors bd :
  (prepare bd).1 = [] ->
  filter survives bd = [] /\ omap embedding_of bd = [].
Proof.
  intros Hnil. pose proof (embed_batch_prepared bd) as E.
  rewrite Hnil in E. unfold embed_batch in E. simpl in E.
  by inversion E.
Qed.

(** What one batch adds to the accumulators, whichever branch it takes. *)
Lemma process_batch_acc docs st i :
  acc_docs (process_batch docs st i)
    = acc_docs st ++ filter survives (batch_of docs i)
  /\ acc_embs (process_batch docs st i)
    = acc_embs st ++ omap embedding_of (batch_of docs i).
Proof.
  unfold process_batch.
  pose proof (embed_batch_prepared (batch_of docs i)) as E.
  pose proof (no_texts_no_survivors (batch_of docs i)) as N.
  destruct (prepare (batch_of docs i)) as [ts ixs]; simpl in *.
  destruct ts as [|t ts].
  - destruct N as [-> ->]; [done|]. by rewrite !app_nil_r.
  - rewrite E. done.
Qed.

(** A batch at a position that is not negative is the next eight
    documents. *)
Lemma batch_of_nonneg docs i :
  0 <= i ->
  batch_of docs i = take 8 (drop (Z.to_nat (i * BATCH_SIZE)) docs).
Proof.
  intros Hi. unfold batch_of, py_slice, slice_bound, BATCH_SIZE.
  set (len := Z.of_nat (length docs)).
  assert (Hlen : 0 <= len) by (unfold len; lia).
  rewrite (proj2 (Z.ltb_ge (i * 8) 0)) by lia.
  rewrite (proj2 (Z.ltb_ge (Z.min (i * 8 + 8) len) 0)) by lia.
  destruct (decide (i * 8 <= len)).
  - rewrite (Z.min_l (i * 8) len) by lia.
    rewrite <- (take_min_length (drop _ _) 8). f_equal.
    rewrite length_drop. lia.
  - rewrite !take_ge; [|rewrite length_drop; lia..].
    rewrite !drop_ge; [done|lia..].
Qed.

Lemma run_acc docs k : forall start st,
  0 <= start ->
  let st' := foldl (process_batch docs) st (seqZ start (Z.of_nat k)) in
  acc_docs st'
    = acc_docs st
      ++ filter survives (take (8 * k) (drop (Z.to_nat (start * BATCH_SIZE)) docs))
  /\ acc_embs st'
    = acc_embs st
      ++ omap embedding_of (take (8 * k) (drop (Z.to_nat (start * BATCH_SIZE)) docs)).
Proof.
  induction k as [|k IH]; intros start st Hs; cbv zeta.
  - rewrite seqZ_nil by lia. simpl. by rewrite !app_nil_r.
  - rewrite seqZ_cons by lia. simpl foldl.
    replace (Z.pred (Z.of_nat (S k))) with (Z.of_nat k) by lia.
    destruct (IH (Z.succ start) (process_batch docs st start) ltac:(lia))
      as [Hd He].
    destruct (process_batch_acc docs st start) as [Pd Pe].
    rewrite batch_of_nonneg in Pd, Pe by done.
    set (X := drop (Z.to_nat (start * BATCH_SIZE)) docs) in *.
    assert (HX : drop (Z.to_nat (Z.succ start * BATCH_SIZE)) docs = drop 8 X).
    { unfold X. rewrite drop_drop. f_equal. unfold BATCH_SIZE. lia. }
    rewrite HX in Hd, He.
    replace (8 * S k)%nat with (8 + 8 * k)%nat by lia.
    rewrite <- (take_take_drop X 8 (8 * k)).
    rewrite filter_app, omap_app, !app_assoc.
    split; [rewrite Hd, Pd | rewrite He, Pe]; done.
Qed.

Lemma total_batches_covers docs :
  Z.of_nat (length docs) <= total_batches docs * BATCH_SIZE
  /\ 0 <= total_batches docs.
Proof.
  unfold total_batches, BATCH_SIZE.
  pose proof (Z.div_mod (Z.of_nat (length docs) + 8 - 1) 8 ltac:(lia)).
  pose proof (Z.mod_pos_bound (Z.of_nat (length docs) + 8 - 1) 8 ltac:(lia)).
  split; [lia|]. apply Z.div_pos; lia.
Qed.

(** The accumulators after the whole loop: what was resumed, then the
    survivors among the documents from the resume point on. *)
Lemma run_batches_acc docs d start ds es :
  resume d = (start, ds, es) ->
  0 <= start ->
  acc_docs (run_batches docs d)
    = ds ++ filter survives (drop (Z.to_nat (start * BATCH_SIZE)) docs)
  /\ acc_embs (run_batches docs d)
    = es ++ omap embedding_of (drop (Z.to_nat (start * BATCH_SIZE)) docs).
Proof.
  intros Hr Hs. unfold run_batches, start_state. rewrite Hr.
  destruct (total_batches_covers docs) as [Hc Ht].
  destruct (decide (start <= total_batches docs)) as [Hle|Hgt].
  - pose proof (run_acc docs (Z.to_nat (total_batches docs - start)) start
      {| acc_docs := ds; acc_embs := es; st_disk := d; st_log := [] |} Hs) as R.
    rewrite Z2Nat.id in R by lia. simpl in R.
    rewrite take_ge in R; [exact R|].
    rewrite length_drop. unfold BATCH_SIZE in *. lia.
  - rewrite seqZ_nil by lia. simpl.
    rewrite drop_ge by (unfold BATCH_SIZE in *; lia).
    by rewrite !app_nil_r.
Qed.

(** The survivors and their embeddings go in pairs. *)
Lemma paired_survivors l : paired (filter survives l) (omap embedding_of l).
Proof.
  unfold paired. induction l as [|d r IH]; simpl; [constructor|].
  rewrite filter_cons.
  destruct (decide (survives d)) as [[e He]|Hn].
  - rewrite He. by constructor.
  - destruct (embedding_of d) as [e|] eqn:He; [|done].
    exfalso. apply Hn. by exists e.
Qed.

Lemma paired_app ds es ds' es' :
  paired ds es -> paired ds' es' -> paired (ds ++ ds') (es ++ es').
Proof. apply Forall2_app. Qed.

Lemma paired_length ds es : paired ds es -> length ds = length es.
Proof. apply Forall2_length. Qed.

(** What one batch writes. *)
Lemma process_batch_log docs st i :
  st_log (process_batch docs st i)
  = st_log st ++
    match (prepare (batch_of docs i)).1 with
    | [] => [WroteInfo (i + 1)]
    | _ => [WroteCheckpoint i
              {| ck_documents := acc_docs (process_batch docs st i);
                 ck_embeddings := acc_embs (process_batch docs st i) |};
            WroteInfo (i + 1)]
    end.
Proof.
  unfold process_batch.
  destruct (prepare (batch_of docs i)) as [ts ixs]; simpl.
  destruct ts as [|t ts]; [done|].
  by destruct (embed_batch _ _ _).
Qed.

Lemma process_batch_disk docs st i :
  st_disk (process_batch docs st i)
  = match (prepare (batch_of docs i)).1 with
    | [] => write_info (i + 1) (st_disk st)
    | _ => write_info (i + 1)
             (write_checkpoint i
                {| ck_documents := acc_docs (process_batch docs st i);
                   ck_embeddings := acc_embs (process_batch docs st i) |}
                (st_disk st))
    end.
Proof.
  unfold process_batch.
  destruct (prepare (batch_of docs i)) as [ts ixs]; simpl.
  destruct ts as [|t ts]; [done|].
  by destruct (embed_batch _ _ _).
Qed.

Lemma process_batch_paired docs st i :
  state_paired st -> state_paired (process_batch docs st i).
Proof.
  intros [Ha Hl Hd].
  destruct (process_batch_acc docs st i) as [Pd Pe].
  assert (Hacc : paired (acc_docs (process_batch docs st i))
                        (acc_embs (process_batch docs st i))).
  { rewrite Pd, Pe. apply paired_app; [done|apply paired_survivors]. }
  split; [done| |].
  - rewrite process_batch_log. intros j c Hin.
    apply elem_of_app in Hin as [Hin|Hin]; [by apply (Hl j)|].
    destruct ((prepare (batch_of docs i)).1).
    + apply list_elem_of_singleton in Hin. done.
    + apply elem_of_cons in Hin as [Hin|Hin]; [by inversion Hin; subst|].
      apply list_elem_of_singleton in Hin. done.
  - rewrite process_batch_disk. intros j c.
    destruct ((prepare (batch_of docs i)).1); simpl; [apply Hd|].
    destruct (decide (i = j)) as [->|Hne].
    + rewrite lookup_insert_eq. intros [= <-]. done.
    + rewrite lookup_insert_ne by done. apply Hd.
Qed.

Lemma foldl_process_batch_paired docs l : forall st,
  state_paired st -> state_paired (foldl (process_batch docs) st l).
Proof.
  induction l as [|i l IH]; intros st Hst; simpl; [done|].
  by apply IH, process_batch_paired.
Qed.

Lemma resume_paired d :
  disk_paired d -> paired (resume d).1.2 (resume d).2.
Proof.
  intros Hd. unfold resume.
  destruct (info d) as [[|nb]|]; try by constructor.
  destruct (ckpts d !! (default 0 nb - 1)) as [[|c]|] eqn:E; try by constructor.
  simpl. by apply (Hd _ _ E).
Qed.

Lemma start_state_paired d :
  disk_paired d -> state_paired (start_state d).2.
Proof.
  intros Hd. pose proof (resume_paired d Hd) as Hr. unfold start_state.
  destruct (resume d) as [[s ds] es]. simpl in *.
  split; simpl; [done| |done]. intros i c Hin. by apply elem_of_nil in Hin.
Qed.


Lemma run_batches_upto_paired n docs d :
  disk_paired d -> state_paired (run_batches_upto n docs d).
Proof.
  intros Hd. pose proof (start_state_paired d Hd) as Hs.
  unfold run_batches_upto. destruct (start_state d) as [s st].
  by apply foldl_process_batch_paired.
Qed.

Lemma process_batch_progress docs st1 st2 i :
  same_progress st1 st2 ->
  same_progress (process_batch docs st1 i) (process_batch docs st2 i).
Proof.
  intros (Hd & He & Hl). unfold same_progress, process_batch.
  destruct (prepare (batch_of docs i)) as [ts ixs].
  destruct ts as [|t ts]; simpl; [by rewrite Hl|].
  destruct (embed_batch _ _ _) as [sd se]; simpl.
  by rewrite Hd, He, Hl.
Qed.

Lemma foldl_process_batch_progress docs l : forall st1 st2,
  same_progress st1 st2 ->
  same_progress (foldl (process_batch docs) st1 l)
                (foldl (process_batch docs) st2 l).
Proof.
  induction l as [|i l IH]; intros st1 st2 Hs; simpl; [done|].
  by apply IH, process_batch_progress.
Qed.

Lemma resume_unusable d : unusable_checkpoint d -> resume d = (0, [], []).
Proof.
  unfold resume. intros [->|(nb & -> & [-> | ->])]; done.
Qed.

Lemma resume_no_info d : info d = None -> resume d = (0, [], []).
Proof. unfold resume. by intros ->. Qed.

Lemma add_documents_documents s docs out d :
  documents (add_documents s docs out d).1.1 = acc_docs (run_batches docs d).
Proof.
  unfold add_documents, finish.
  by destruct (acc_embs (run_batches docs d)).
Qed.

Lemma add_documents_log s docs out d :
  (add_documents s docs out d).2 = st_log (run_batches docs d).
Proof.
  unfold add_documents.
  by destruct (finish s docs out (run_batches docs d)).
Qed.

Lemma add_documents_store s docs out d :
  (add_documents s docs out d).1.1
  = (finish s docs out (run_batches docs d)).1.
Proof.
  unfold add_documents.
  by destruct (finish s docs out (run_batches docs d)).
Qed.

Lemma finish_store s docs out st1 st2 :
  same_progress st1 st2 ->
  (finish s docs out st1).1 = (finish s docs out st2).1.
Proof.
  intros (Hd & He & _). unfold finish. rewrite Hd, He.
  by destruct (acc_embs st2).
Qed.

(** *** The writes of a run *)

Lemma info_values_app l1 l2 :
  info_values (l1 ++ l2) = info_values l1 ++ info_values l2.
Proof. apply omap_app. Qed.

Lemma checkpoint_batches_app l1 l2 :
  checkpoint_batches (l1 ++ l2) = checkpoint_batches l1 ++ checkpoint_batches l2.
Proof. apply omap_app. Qed.

(** Every batch writes the info record, with the index of the batch
    after it. *)
Lemma foldl_info_values docs l : forall st,
  info_values (st_log (foldl (process_batch docs) st l))
  = info_values (st_log st) ++ ((fun i => i + 1) <$> l).
Proof.
  induction l as [|i l IH]; intros st; simpl; [by rewrite app_nil_r|].
  rewrite IH, process_batch_log, info_values_app, <- app_assoc. f_equal.
  by destruct ((prepare (batch_of docs i)).1).
Qed.

(** A batch writes a checkpoint artifact only when it has a cleaned text
    that is not empty. *)
Lemma foldl_checkpoint_batches docs l : forall st,
  checkpoint_batches (st_log (foldl (process_batch docs) st l))
  = checkpoint_batches (st_log st) ++ filter (has_texts docs) l.
Proof.
  induction l as [|i l IH]; intros st; simpl; [by rewrite app_nil_r|].
  rewrite IH, process_batch_log, checkpoint_batches_app, <- app_assoc. f_equal.
  rewrite filter_cons.
  destruct (decide (has_texts docs i)) as [Ht|Hn]; unfold has_texts in *.
  - by destruct ((prepare (batch_of docs i)).1).
  - destruct ((prepare (batch_of docs i)).1); [done|]. by destruct Hn.
Qed.

Lemma run_batches_writes docs d :
  let batches := seqZ (resume d).1.1 (total_batches docs - (resume d).1.1) in
  info_values (st_log (run_batches docs d)) = (fun i => i + 1) <$> batches
  /\ checkpoint_batches (st_log (run_batches docs d))
     = filter (has_texts docs) batches.
Proof.
  unfold run_batches, start_state.
  destruct (resume d) as [[start ds] es]. simpl.
  by rewrite foldl_info_values, foldl_checkpoint_batches.
Qed.

(** *** Python slices *)

Example py_slice_negative : py_slice [1; 2; 3; 4; 5] (-3) (-1) = [3; 4].
Proof. reflexivity. Qed.

Example py_slice_clamped : py_slice [1; 2; 3; 4; 5] 2 10 = [3; 4; 5].
Proof. reflexivity. Qed.

Example py_slice_crossed : py_slice [1; 2; 3; 4; 5] 4 2 = [].
Proof. reflexivity. Qed.

Example py_slice_to_zero : py_slice [1; 2; 3; 4; 5] (-8) 0 = [].
Proof. reflexivity. Qed.

Example range_step_five : range_step 5 2 = [0; 2; 4]%nat.
Proof. reflexivity. Qed.

End Facts.
End StoreFacts.

(** ** Facts about retrieval and persistence *)

Module SearchFacts.
Import Text Store.

Local Open Scope Z_scope.

(** *** The score *)

Lemma score_bounds (d : Q) :
  (0 <= d)%Q -> (0 < 1 / (1 + d))%Q /\ (1 / (1 + d) <= 1)%Q.
Proof.
  intros Hd. assert (Hpos : (0 < 1 + d)%Q) by lra.
  split.
  - apply Qlt_shift_div_l; [done|]. lra.
  - apply Qle_shift_div_r; [done|]. lra.
Qed.

Lemma score_antitone (d1 d2 : Q) :
  (0 <= d1)%Q -> (d1 <= d2)%Q -> (1 / (1 + d2) <= 1 / (1 + d1))%Q.
Proof.
  intros H1 H12.
  assert (Hp1 : (0 < 1 + d1)%Q) by lra.
  assert (Hp2 : (0 < 1 + d2)%Q) by lra.
  apply Qle_shift_div_r; [done|].
  assert (E : (1 / (1 + d1) * (1 + d2) == (1 + d2) / (1 + d1))%Q)
    by (field; lra).
  rewrite E. apply Qle_shift_div_l; [done|]. lra.
Qed.

(** *** Lists *)

Lemma omap_cons {A B} (f : A -> option B) (x : A) (l : list A) :
  omap f (x :: l) = match f x with Some y => y :: omap f l | None => omap f l end.
Proof. reflexivity. Qed.

Lemma length_omap_le {A B} (f : A -> option B) (l : list A) :
  (length (omap f l) <= length l)%nat.
Proof.
  induction l as [|x l IH]; csimpl; [lia|].
  destruct (f x); simpl; lia.
Qed.

Lemma filter_all {A} (P : A -> Prop) `{!forall x, Decision (P x)} (l : list A) :
  Forall P l -> filter P l = l.
Proof.
  induction 1 as [|x l Hx Hl IH]; [done|].
  rewrite filter_cons, decide_True by done. by rewrite IH.
Qed.

Lemma filter_none {A} (P : A -> Prop) `{!forall x, Decision (P x)} (l : list A) :
  Forall (fun x => ~ P x) l -> filter P l = [].
Proof.
  induction 1 as [|x l Hx Hl IH]; [done|].
  by rewrite filter_cons, decide_False.
Qed.

(** A sorted list stays sorted, for a second relation, through a partial
    map that respects the two relations on the elements it keeps. *)
Lemma StronglySorted_omap {A B} (R : relation A) (R' : relation B)
    (P : A -> Prop) (f : A -> option B) (l : list A) :
  (forall a b a' b', P a -> P b -> R a b ->
                     f a = Some a' -> f b = Some b' -> R' a' b') ->
  StronglySorted R l -> Forall P l -> StronglySorted R' (omap f l).
Proof.
  intros Hf Hs. induction Hs as [|a l Hs IH Ha]; intros HP.
  - constructor.
  - rewrite omap_cons. apply Forall_cons in HP as [Pa Pl].
    destruct (f a) as [a'|] eqn:Ea; [|by apply IH].
    constructor; [by apply IH|].
    apply Forall_forall. intros b' Hb'.
    apply list_elem_of_omap in Hb' as (b & Hb & Eb).
    rewrite Forall_forall in Ha, Pl. eauto.
Qed.

(** Labels that differ and lie in [[0, n)] are at most [n]. *)
Lemma labels_bound (ls : list Z) (n : nat) :
  NoDup ls -> Forall (fun i => 0 <= i < Z.of_nat n) ls -> (length ls <= n)%nat.
Proof.
  intros Hnd Hall.
  assert (Hsub : ls ⊆+ seqZ 0 (Z.of_nat n)).
  { apply NoDup_submseteq; [done|]. intros x Hx.
    rewrite Forall_forall in Hall. apply elem_of_seqZ. specialize (Hall x Hx). lia. }
  apply submseteq_length in Hsub. rewrite length_seqZ in Hsub. lia.
Qed.

Section Search.
Context `{IndexBackend}.

Lemma hit_result_Some docs d i r :
  hit_result docs (d, i) = Some r ->
  0 <= i < Z.of_nat (length docs)
  /\ docs !! Z.to_nat i = Some (doc r)
  /\ score r = (1 / (1 + d))%Q.
Proof.
  unfold hit_result.
  destruct (i <? Z.of_nat (length docs)) eqn:E1; [|done].
  destruct (i >=? 0) eqn:E2; [|done]. simpl.
  destruct (docs !! Z.to_nat i) as [x|]; [|done]. simpl. intros [= <-].
  simpl. repeat split; lia.
Qed.

Lemma hit_result_in_range docs d i :
  0 <= i < Z.of_nat (length docs) -> is_Some (hit_result docs (d, i)).
Proof.
  intros Hi. unfold hit_result.
  rewrite (proj2 (Z.ltb_lt _ _)) by lia.
  rewrite (proj2 (Z.geb_le _ _)) by lia. simpl.
  destruct (lookup_lt_is_Some_2 docs (Z.to_nat i) ltac:(lia)) as [x ->].
  by eexists.
Qed.

(** Only hits that name a vector give a result. *)
Lemma results_from_valid_hits docs hits :
  omap (hit_result docs) hits = omap (hit_result docs) (valid_hits hits).
Proof.
  unfold valid_hits. induction hits as [|[d i] hits IH]; [done|].
  rewrite filter_cons, omap_cons. simpl snd.
  destruct (decide (0 <= i)) as [Hi|Hi]; rewrite ?omap_cons, IH; [done|].
  destruct (hit_result docs (d, i)) as [r|] eqn:E; [|done].
  apply hit_result_Some in E. lia.
Qed.

Lemma valid_hits_length hits : (length (valid_hits hits) <= length hits)%nat.
Proof. apply length_filter. Qed.

Lemma valid_hits_bound (n : nat) hits :
  NoDup (valid_hits hits).*2 ->
  Forall (fun h => h.2 < Z.of_nat n) hits ->
  (length (valid_hits hits) <= n)%nat.
Proof.
  intros Hnd Hlt. rewrite <- (length_fmap snd).
  apply labels_bound; [done|].
  apply Forall_fmap, Forall_forall. intros h Hh.
  apply list_elem_of_filter in Hh as [Hv Hh].
  rewrite Forall_forall in Hlt. specialize (Hlt h Hh). simpl. lia.
Qed.

Lemma results_from_hits docs hits :
  exists kept, kept `sublist_of` hits
               /\ Forall2 (from_hit docs) (omap (hit_result docs) hits) kept.
Proof.
  induction hits as [|[d i] hits (kept & Hsub & Hall)].
  - exists []. split; [done|constructor].
  - rewrite omap_cons. destruct (hit_result docs (d, i)) as [r|] eqn:E.
    + exists ((d, i) :: kept). split; [by constructor|].
      constructor; [|done]. apply hit_result_Some in E. unfold from_hit.
      simpl. intuition lia.
    + exists kept. split; [by constructor|done].
Qed.

#[local] Instance by_first_trans : Transitive (fun a b : Q * Z => (a.1 <= b.1)%Q).
Proof. intros a b c. apply Qle_trans. Qed.

(** Under the contract of the index the results come by descending
    score. *)
Lemma results_sorted docs hits :
  Sorted (fun a b => a.1 <= b.1)%Q (valid_hits hits) ->
  Forall (fun h => 0 <= h.1)%Q (valid_hits hits) ->
  StronglySorted (fun a b => score b <= score a)%Q
                 (omap (hit_result docs) hits).
Proof.
  intros Hs Hn. rewrite results_from_valid_hits.
  apply Sorted_StronglySorted in Hs; [|apply _].
  eapply StronglySorted_omap; [|exact Hs|exact Hn].
  intros [d1 i1] [d2 i2] r1 r2 H1 H2 H12 E1 E2. simpl in *.
  apply hit_result_Some in E1 as (_ & _ & ->).
  apply hit_result_Some in E2 as (_ & _ & ->).
  by apply score_antitone.
Qed.

Lemma results_scores docs hits :
  Forall (fun h => 0 <= h.1)%Q (valid_hits hits) ->
  Forall (fun r => exists d, (0 <= d)%Q /\ score r = (1 / (1 + d))%Q
                             /\ (0 < score r)%Q /\ (score r <= 1)%Q)
         (omap (hit_result docs) hits).
Proof.
  intros Hn. rewrite results_from_valid_hits.
  apply Forall_forall. intros r Hr.
  apply list_elem_of_omap in Hr as ([d i] & Hin & E).
  rewrite Forall_forall in Hn. specialize (Hn _ Hin). simpl in Hn.
  apply hit_result_Some in E as (_ & _ & ->).
  exists d. destruct (score_bounds d Hn). done.
Qed.

End Search.
End SearchFacts.

(** ** More about the batch loop, the cleanup and the artifacts *)

Module StoreMoreFacts.
Import Text TextFacts Shape ShapeFacts Store StoreFacts StoreMore.

Local Open Scope Z_scope.

Section Facts.
Context `{IndexBackend}.

(** *** Which documents are admitted *)

Lemma usable_Some d t :
  usable d = Some t <->
  exists s, content d = Some (PyStr s) /\ clean_str s = t /\ t <> [].
Proof.
  unfold usable. destruct (content d) as [[s|]|]; simpl.
  - destruct (clean_str s) as [|c r] eqn:E.
    + split; [done|]. intros (s' & [= <-] & E' & Hne).
      rewrite E in E'. by subst.
    + split.
      * intros [= <-]. by exists s.
      * intros (s' & [= <-] & E' & _). rewrite E in E'. by subst.
  - split; [done|]. by intros (s' & ? & _).
  - split; [done|]. by intros (s' & ? & _).
Qed.

Lemma survives_content d :
  survives d <->
  exists s, content d = Some (PyStr s)
            /\ ~ Forall (fun c => is_blank c = true) s
            /\ is_Some (encode (clean_str s)).
Proof.
  unfold survives, embedding_of. split.
  - intros [e He]. destruct (usable d) as [t|] eqn:Hu; [|done].
    apply usable_Some in Hu as (s & Hc & Hs & Hne). simpl in He.
    exists s. split; [done|]. split.
    + intros Hb. apply clean_str_nil_iff in Hb. congruence.
    + rewrite Hs. by exists e.
  - intros (s & Hc & Hb & [e He]).
    assert (Hu : usable d = Some (clean_str s)).
    { apply usable_Some. exists s. split; [done|]. split; [done|].
      intros E. by apply Hb, clean_str_nil_iff. }
    rewrite Hu. simpl. by exists e.
Qed.

(** *** What the loop does to the disk *)

Lemma process_batch_stores docs st i :
  stores (st_disk (process_batch docs st i)) = stores (st_disk st).
Proof.
  rewrite process_batch_disk. by destruct ((prepare (batch_of docs i)).1).
Qed.

Lemma foldl_process_batch_stores docs l : forall st,
  stores (st_disk (foldl (process_batch docs) st l)) = stores (st_disk st).
Proof.
  induction l as [|i l IH]; intros st; simpl; [done|].
  by rewrite IH, process_batch_stores.
Qed.

Lemma process_batch_info docs st i :
  info (st_disk (process_batch docs st i)) = Some (InfoRecord (Some (i + 1))).
Proof.
  rewrite process_batch_disk. by destruct ((prepare (batch_of docs i)).1).
Qed.

Lemma process_batch_ckpts_other docs st i j :
  i <> j ->
  ckpts (st_disk (process_batch docs st i)) !! j = ckpts (st_disk st) !! j.
Proof.
  intros Hne. rewrite process_batch_disk.
  destruct ((prepare (batch_of docs i)).1); simpl; [done|].
  by rewrite lookup_insert_ne.
Qed.

Lemma foldl_process_batch_ckpts_other docs l j : forall st,
  j ∉ l ->
  ckpts (st_disk (foldl (process_batch docs) st l)) !! j = ckpts (st_disk st) !! j.
Proof.
  induction l as [|i l IH]; intros st Hj; simpl; [done|].
  apply not_elem_of_cons in Hj as [Hne Hj].
  rewrite IH by done. by apply process_batch_ckpts_other.
Qed.

Lemma process_batch_ckpts_self docs st i :
  ckpts (st_disk (process_batch docs st i)) !! i
  = if decide (has_texts docs i)
    then Some (CkptData {| ck_documents := acc_docs (process_batch docs st i);
                           ck_embeddings := acc_embs (process_batch docs st i) |})
    else ckpts (st_disk st) !! i.
Proof.
  rewrite process_batch_disk. unfold has_texts.
  destruct ((prepare (batch_of docs i)).1) as [|t ts] eqn:E.
  - by rewrite decide_False by (by intros ?).
  - rewrite decide_True by done. simpl. by rewrite lookup_insert_eq.
Qed.

Lemma seqZ_snoc m (k : nat) :
  seqZ m (Z.of_nat (S k)) = seqZ m (Z.of_nat k) ++ [m + Z.of_nat k].
Proof.
  replace (Z.of_nat (S k)) with (Z.of_nat k + 1) by lia.
  rewrite seqZ_app by lia. done.
Qed.

Lemma take_seqZ (n : nat) m len :
  take n (seqZ m len) = seqZ m (Z.min (Z.of_nat n) len).
Proof.
  destruct (decide (len <= 0)) as [Hl|Hl].
  - rewrite !seqZ_nil by lia. by rewrite take_nil.
  - destruct (decide (Z.of_nat n <= len)) as [Hn|Hn].
    + replace len with (Z.of_nat n + (len - Z.of_nat n)) at 1 by lia.
      rewrite seqZ_app by lia.
      rewrite take_app_length'; [|rewrite length_seqZ; lia].
      f_equal. lia.
    + rewrite take_ge by (rewrite length_seqZ; lia). f_equal. lia.
Qed.

Lemma foldl_process_batch_info docs (m : nat) start st :
  info (st_disk (foldl (process_batch docs) st (seqZ start (Z.of_nat m))))
  = match m with
    | O => info (st_disk st)
    | S _ => Some (InfoRecord (Some (start + Z.of_nat m)))
    end.
Proof.
  destruct m as [|m]; [done|].
  rewrite seqZ_snoc, foldl_app. simpl foldl.
  rewrite process_batch_info. do 3 f_equal. lia.
Qed.

Lemma between_snoc (docs : list Doc) start (m : nat) :
  0 <= start ->
  take (Z.to_nat ((start + Z.of_nat m + 1 - start) * BATCH_SIZE))
       (drop (Z.to_nat (start * BATCH_SIZE)) docs)
  = take (8 * S m) (drop (Z.to_nat (start * BATCH_SIZE)) docs).
Proof. intros Hs. f_equal. unfold BATCH_SIZE. lia. Qed.

(** The artifacts on disk after [m] batches from batch [start]: batch
    [j] of the range has one exactly when it has a text, and it holds
    the accumulators as they were after that batch. *)
Lemma foldl_ckpts_lookup docs (m : nat) start st j :
  0 <= start ->
  ckpts (st_disk (foldl (process_batch docs) st (seqZ start (Z.of_nat m)))) !! j
  = if decide (start <= j < start + Z.of_nat m /\ has_texts docs j)
    then Some (CkptData
                 {| ck_documents := acc_docs st ++ survivors_between docs start j;
                    ck_embeddings := acc_embs st ++ embeddings_between docs start j |})
    else ckpts (st_disk st) !! j.
Proof.
  intros Hs. induction m as [|m IH].
  - simpl. rewrite decide_False by lia. done.
  - pose proof (run_acc docs (S m) start st Hs) as [Rd Re].
    revert Rd Re. rewrite seqZ_snoc, foldl_app. simpl foldl.
    set (st' := foldl (process_batch docs) st (seqZ start (Z.of_nat m))) in *.
    intros Rd Re.
    destruct (decide (j = start + Z.of_nat m)) as [->|Hne].
    + rewrite process_batch_ckpts_self.
      destruct (decide (has_texts docs (start + Z.of_nat m))) as [Ht|Ht].
      * rewrite decide_True by (split; [lia|done]).
        rewrite Rd, Re. unfold survivors_between, embeddings_between.
        by rewrite between_snoc.
      * rewrite decide_False by (by intros [_ ?]).
        rewrite IH. rewrite decide_False by lia. done.
    + rewrite process_batch_ckpts_other by done. rewrite IH.
      destruct (decide (has_texts docs j)) as [Ht|Ht].
      * destruct (decide (start <= j < start + Z.of_nat m)) as [Hj|Hj].
        -- rewrite !decide_True by (split; [lia|done]). done.
        -- rewrite !decide_False by lia. done.
      * rewrite !decide_False by (by intros [_ ?]). done.
Qed.

(** The same for the writes of the log. *)
Lemma foldl_log_checkpoints docs (m : nat) start st i c :
  0 <= start ->
  WroteCheckpoint i c
    ∈ st_log (foldl (process_batch docs) st (seqZ start (Z.of_nat m))) ->
  WroteCheckpoint i c ∈ st_log st
  \/ (start <= i < start + Z.of_nat m /\ has_texts docs i
      /\ c = {| ck_documents := acc_docs st ++ survivors_between docs start i;
                ck_embeddings := acc_embs st ++ embeddings_between docs start i |}).
Proof.
  intros Hs. induction m as [|m IH]; [by left|].
  pose proof (run_acc docs (S m) start st Hs) as [Rd Re].
  revert Rd Re. rewrite seqZ_snoc, foldl_app. simpl foldl.
  set (st' := foldl (process_batch docs) st (seqZ start (Z.of_nat m))) in *.
  intros Rd Re. rewrite process_batch_log.
  intros Hin. apply elem_of_app in Hin as [Hin|Hin].
  - destruct (IH Hin) as [?|(Hr & Ht & Hc)]; [by left|].
    right. split; [lia|done].
  - right. unfold has_texts.
    destruct ((prepare (batch_of docs (start + Z.of_nat m))).1) eqn:E.
    + apply list_elem_of_singleton in Hin. done.
    + apply elem_of_cons in Hin as [Hin|Hin].
      * inversion Hin; subst. split; [lia|]. split; [by rewrite E|].
        rewrite Rd, Re. unfold survivors_between, embeddings_between.
        by rewrite between_snoc.
      * apply list_elem_of_singleton in Hin. done.
Qed.

Lemma disk_eq (d1 d2 : Disk) :
  info d1 = info d2 ->
  (forall j, ckpts d1 !! j = ckpts d2 !! j) ->
  stores d1 = stores d2 ->
  d1 = d2.
Proof.
  destruct d1, d2; simpl. intros -> Hc ->. f_equal. by apply map_eq.
Qed.

Lemma finish_ext s docs out st1 st2 :
  acc_docs st1 = acc_docs st2 ->
  acc_embs st1 = acc_embs st2 ->
  st_disk st1 = st_disk st2 ->
  finish s docs out st1 = finish s docs out st2.
Proof. unfold finish. by intros -> -> ->. Qed.

Lemma between_from_zero (docs : list Doc) (a : nat) j :
  Z.of_nat a <= j ->
  take (8 * a) docs
  ++ take (Z.to_nat ((j + 1 - Z.of_nat a) * BATCH_SIZE))
          (drop (Z.to_nat (Z.of_nat a * BATCH_SIZE)) docs)
  = take (Z.to_nat ((j + 1 - 0) * BATCH_SIZE)) (drop (Z.to_nat (0 * BATCH_SIZE)) docs).
Proof.
  intros Hj. simpl drop.
  replace (Z.to_nat (Z.of_nat a * BATCH_SIZE)) with (8 * a)%nat
    by (unfold BATCH_SIZE; lia).
  rewrite take_take_drop. f_equal. unfold BATCH_SIZE. lia.
Qed.

(** The loop from batch [a] to batch [b], entered in the state a run
    from batch 0 has there. *)
Lemma loop_between docs (a b : nat) d0 :
  (a <= b)%nat ->
  let st := foldl (process_batch docs) (state_at docs a d0)
                  (seqZ (Z.of_nat a) (Z.of_nat (b - a))) in
  acc_docs st = filter survives (take (8 * b) docs)
  /\ acc_embs st = omap embedding_of (take (8 * b) docs)
  /\ stores (st_disk st) = stores d0
  /\ info (st_disk st)
     = (if decide (a < b)%nat then Some (InfoRecord (Some (Z.of_nat b)))
        else info d0)
  /\ forall j, ckpts (st_disk st) !! j
               = if decide (Z.of_nat a <= j < Z.of_nat b /\ has_texts docs j)
                 then Some (CkptData (checkpoint_of docs j))
                 else ckpts d0 !! j.
Proof.
  intros Hab st.
  pose proof (run_acc docs (b - a) (Z.of_nat a) (state_at docs a d0) ltac:(lia))
    as [Rd Re]. fold st in Rd, Re.
  unfold state_at in Rd, Re. cbn [acc_docs acc_embs] in Rd, Re.
  assert (Hsplit : take (8 * a) docs
                   ++ take (8 * (b - a))
                        (drop (Z.to_nat (Z.of_nat a * BATCH_SIZE)) docs)
                   = take (8 * b) docs).
  { replace (Z.to_nat (Z.of_nat a * BATCH_SIZE)) with (8 * a)%nat
      by (unfold BATCH_SIZE; lia).
    rewrite take_take_drop. f_equal. lia. }
  split; [by rewrite Rd, <- filter_app, Hsplit|].
  split; [by rewrite Re, <- omap_app, Hsplit|].
  split; [apply foldl_process_batch_stores|].
  split.
  - unfold st. rewrite foldl_process_batch_info.
    destruct (b - a)%nat as [|m] eqn:E.
    + by rewrite decide_False by lia.
    + rewrite decide_True by lia. do 3 f_equal. lia.
  - intros j. unfold st. rewrite foldl_ckpts_lookup by lia.
    unfold state_at. cbn [acc_docs acc_embs st_disk].
    destruct (decide (has_texts docs j)) as [Ht|Ht].
    + destruct (decide (Z.of_nat a <= j < Z.of_nat b)) as [Hj|Hj].
      * rewrite !decide_True by (split; [lia|done]).
        unfold checkpoint_of, survivors_between, embeddings_between.
        rewrite <- filter_app, <- omap_app.
        rewrite between_from_zero by lia. done.
      * rewrite !decide_False by lia. done.
    + rewrite !decide_False by (by intros [_ ?]). done.
Qed.

Lemma state_at_zero docs d :
  state_at docs 0 d
  = {| acc_docs := []; acc_embs := []; st_disk := d; st_log := [] |}.
Proof. done. Qed.

(** A run from an empty checkpoint directory, cut after [n] batches, is
    the loop from batch 0 to batch [min n total_batches]. *)
Lemma run_batches_upto_clean n docs d :
  clean_checkpoints d ->
  run_batches_upto n docs d
  = foldl (process_batch docs) (state_at docs 0 d)
      (seqZ (Z.of_nat 0)
            (Z.of_nat (Nat.min n (Z.to_nat (total_batches docs)) - 0))).
Proof.
  intros [Hi _]. unfold run_batches_upto, start_state.
  rewrite (resume_no_info d Hi), state_at_zero, take_seqZ.
  destruct (total_batches_covers docs) as [_ Ht].
  do 2 f_equal. lia.
Qed.

Lemma run_batches_clean docs d :
  info d = None ->
  run_batches docs d
  = foldl (process_batch docs) (state_at docs 0 d)
      (seqZ (Z.of_nat 0) (Z.of_nat (Z.to_nat (total_batches docs) - 0))).
Proof.
  intros Hi. unfold run_batches, start_state.
  rewrite (resume_no_info d Hi), state_at_zero.
  destruct (total_batches_covers docs) as [_ Ht].
  do 2 f_equal. lia.
Qed.

(** Where the next run starts on the disk that the cut run leaves. *)
Lemma start_state_killed n docs d :
  clean_checkpoints d ->
  let killed := st_disk (run_batches_upto n docs d) in
  exists a : nat,
    (a <= Z.to_nat (total_batches docs))%nat
    /\ start_state killed = (Z.of_nat a, state_at docs a killed)
    /\ (a = 0%nat \/ a = Nat.min n (Z.to_nat (total_batches docs))).
Proof.
  intros Hc killed. unfold killed.
  rewrite run_batches_upto_clean by done.
  set (k := Nat.min n (Z.to_nat (total_batches docs))).
  destruct (loop_between docs 0 k d ltac:(lia)) as (_ & _ & _ & Hi & Hk).
  set (st := foldl _ _ _) in *. destruct Hc as [Hi0 Hc0].
  unfold start_state, resume. rewrite Hi.
  destruct (decide (0 < k)%nat) as [Hpos|Hz].
  - simpl. rewrite Hk.
    destruct (decide (has_texts docs (Z.of_nat k - 1))) as [Ht|Ht].
    + rewrite decide_True by (split; [lia|done]).
      exists k. split; [lia|]. split; [|by right].
      unfold state_at, checkpoint_of, survivors_between, embeddings_between.
      simpl. rewrite drop_0.
      replace (Z.to_nat ((Z.of_nat k - 1 + 1 - 0) * BATCH_SIZE))
        with (8 * k)%nat by (unfold BATCH_SIZE; lia).
      done.
    + rewrite decide_False by (by intros [_ ?]).
      rewrite Hc0, lookup_empty.
      exists 0%nat. split; [lia|]. split; [done|by left].
  - rewrite Hi0. exists 0%nat. split; [lia|]. split; [done|by left].
Qed.

(** The loop of the next run ends in the state of the run that was not
    cut. *)
Lemma rerun_after_kill n docs d :
  clean_checkpoints d ->
  let killed := st_disk (run_batches_upto n docs d) in
  acc_docs (run_batches docs killed) = acc_docs (run_batches docs d)
  /\ acc_embs (run_batches docs killed) = acc_embs (run_batches docs d)
  /\ st_disk (run_batches docs killed) = st_disk (run_batches docs d).
Proof.
  intros Hc killed.
  destruct (start_state_killed n docs d Hc) as (a & Ha & Hst & Hak).
  fold killed in Hst.
  destruct (total_batches_covers docs) as [_ Ht].
  set (T := Z.to_nat (total_batches docs)) in *.
  set (k := Nat.min n T) in *.
  assert (Hrun : run_batches docs killed
                 = foldl (process_batch docs) (state_at docs a killed)
                         (seqZ (Z.of_nat a) (Z.of_nat (T - a)))).
  { unfold run_batches. rewrite Hst. do 2 f_equal. lia. }
  rewrite Hrun, (run_batches_clean docs d) by apply Hc. fold T.
  destruct (loop_between docs a T killed Ha) as (Kd & Ke & Ks & Ki & Kc).
  destruct (loop_between docs 0 T d ltac:(lia)) as (Fd & Fe & Fs & Fi & Fc).
  assert (Hkilled : killed
            = st_disk (foldl (process_batch docs) (state_at docs 0 d)
                         (seqZ (Z.of_nat 0) (Z.of_nat (k - 0))))).
  { unfold killed. by rewrite run_batches_upto_clean. }
  destruct (loop_between docs 0 k d ltac:(lia)) as (_ & _ & Ls & Li & Lc).
  rewrite <- Hkilled in Ls, Li, Lc.
  split; [by rewrite Kd, Fd|]. split; [by rewrite Ke, Fe|].
  assert (Hk : (k <= T)%nat) by (unfold k; lia).
  apply disk_eq.
  - rewrite Ki, Fi, Li.
    repeat (destruct (decide _)); try done; try lia; do 3 f_equal; lia.
  - intros j. rewrite Kc, Fc, Lc.
    destruct (decide (has_texts docs j)) as [Hj|Hj].
    + repeat match goal with
             | |- context [decide (?P /\ has_texts docs j)] =>
                 destruct (decide (P /\ has_texts docs j)) as [[? _]|Hn];
                 [|assert (~ P) by (intros ?; apply Hn; by split); clear Hn]
             end; try done; lia.
    + rewrite !decide_False by (by intros [_ ?]). done.
  - by rewrite Ks, Fs, Ls.
Qed.

(** *** After the loop *)

Lemma foldl_remove_checkpoint l : forall d,
  info (foldl remove_checkpoint d l) = info d
  /\ stores (foldl remove_checkpoint d l) = stores d
  /\ forall j, ckpts (foldl remove_checkpoint d l) !! j
               = if decide (j ∈ l) then None else ckpts d !! j.
Proof.
  induction l as [|i l IH]; intros d; cbn [foldl].
  - split; [done|]. split; [done|]. intros j.
    rewrite decide_False by apply not_elem_of_nil. done.
  - destruct (IH (remove_checkpoint d i)) as (Hi & Hs & Hc).
    split; [done|]. split; [done|]. intros j. rewrite Hc.
    cbn [remove_checkpoint ckpts].
    destruct (decide (j = i)) as [->|Hne].
    + rewrite (decide_True (P := i ∈ i :: l)) by left.
      destruct (decide (i ∈ l)); [done|]. apply lookup_delete_eq.
    + rewrite lookup_delete_ne by done.
      destruct (decide (j ∈ l)) as [Hin|Hin].
      * rewrite decide_True by (by right). done.
      * rewrite decide_False; [done|].
        intros Hin'. apply elem_of_cons in Hin' as [?|?]; done.
Qed.

(** The branch that builds the index: the store, and what is left on
    the disk. *)
Lemma finish_built s docs out st :
  acc_embs st <> [] ->
  (finish s docs out st).1
    = {| index := Some (index_build (acc_embs st));
         documents := acc_docs st;
         embeddings := None |}
  /\ info (finish s docs out st).2 = None
  /\ stores (finish s docs out st).2
     = match out with
       | Some p =>
           <[p := {| p_documents := acc_docs st;
                     p_index := Some (serialize_index (index_build (acc_embs st))) |}]>
             (stores (st_disk st))
       | None => stores (st_disk st)
       end
  /\ forall j, ckpts (finish s docs out st).2 !! j
               = if decide (0 <= j < total_batches docs) then None
                 else ckpts (st_disk st) !! j.
Proof.
  intros Hne. unfold finish.
  destruct (acc_embs st) as [|e es] eqn:E; [done|]. simpl.
  set (d1 := match out with Some p => _ | None => _ end).
  destruct (foldl_remove_checkpoint (seqZ 0 (total_batches docs)) d1)
    as (Hi & Hs & Hc).
  split; [done|]. split; [done|]. split.
  - rewrite Hs. unfold d1. by destruct out.
  - intros j. rewrite Hc.
    assert (Hd1 : ckpts d1 = ckpts (st_disk st)) by (unfold d1; by destruct out).
    rewrite Hd1.
    destruct (decide (0 <= j < total_batches docs)) as [Hj|Hj].
    + rewrite decide_True; [done|]. apply elem_of_seqZ. lia.
    + rewrite decide_False; [done|]. rewrite elem_of_seqZ. lia.
Qed.

(** The branch without embeddings: nothing is built, saved or removed. *)
Lemma finish_empty s docs out st :
  acc_embs st = [] ->
  finish s docs out st
  = ({| index := index s; documents := acc_docs st; embeddings := Some [] |},
     st_disk st).
Proof. intros E. unfold finish. by rewrite E. Qed.

Lemma add_documents_disk s docs out d :
  (add_documents s docs out d).1.2 = (finish s docs out (run_batches docs d)).2.
Proof.
  unfold add_documents. by destruct (finish s docs out (run_batches docs d)).
Qed.

(** The loop writes no artifact outside its range of batches. *)
Lemma run_batches_ckpts_outside docs d j :
  ~ ((resume d).1.1 <= j < total_batches docs) ->
  ckpts (st_disk (run_batches docs d)) !! j = ckpts d !! j.
Proof.
  intros Hj. unfold run_batches, start_state.
  destruct (resume d) as [[start ds] es]. simpl in Hj.
  rewrite foldl_process_batch_ckpts_other; [done|].
  rewrite elem_of_seqZ. lia.
Qed.

Lemma run_batches_stores docs d :
  stores (st_disk (run_batches docs d)) = stores d.
Proof.
  unfold run_batches, start_state. destruct (resume d) as [[start ds] es].
  by rewrite foldl_process_batch_stores.
Qed.

(** After the loop the info record names the batch after the last one,
    when the loop had a batch to do. *)
Lemma run_batches_info docs d :
  (resume d).1.1 < total_batches docs ->
  info (st_disk (run_batches docs d))
  = Some (InfoRecord (Some (total_batches docs))).
Proof.
  intros Hlt. unfold run_batches, start_state.
  destruct (resume d) as [[start ds] es]. simpl in Hlt.
  replace (total_batches docs - start)
    with (Z.of_nat (Z.to_nat (total_batches docs - start))) by lia.
  rewrite foldl_process_batch_info.
  destruct (Z.to_nat (total_batches docs - start)) eqn:E; [lia|].
  do 3 f_equal. lia.
Qed.

(** A checkpoint that names a batch past the end leaves the loop
    nothing to do. *)
Lemma run_batches_past_end docs d :
  total_batches docs <= (resume d).1.1 ->
  run_batches docs d = (start_state d).2.
Proof.
  intros Hge. unfold run_batches, start_state.
  destruct (resume d) as [[start ds] es]. simpl in *.
  by rewrite seqZ_nil by lia.
Qed.

Lemma survivor_embedding l x :
  x ∈ l -> survives x -> omap embedding_of l <> [].
Proof.
  intros Hin [e He] E.
  assert (Hx : e ∈ omap embedding_of l).
  { apply list_elem_of_omap. by exists x. }
  rewrite E in Hx. by apply not_elem_of_nil in Hx.
Qed.

(** *** Searching a store *)

Lemma results_count docs hits :
  Forall (fun h => h.2 < Z.of_nat (length docs)) hits ->
  length (omap (hit_result docs) hits) = length (valid_hits hits).
Proof.
  unfold valid_hits. induction 1 as [|[q i] hits Hi _ IH]; [done|].
  rewrite SearchFacts.omap_cons, filter_cons. cbn [snd] in Hi.
  destruct (decide (0 <= (q, i).2)) as [Hp|Hn]; cbn [snd] in *.
  - destruct (SearchFacts.hit_result_in_range docs q i ltac:(lia)) as [r Hr].
    rewrite Hr. cbn [length]. by rewrite IH.
  - unfold hit_result.
    replace (i >=? 0) with false by lia.
    by rewrite andb_false_r.
Qed.

(** A store whose index holds one vector for every document answers a
    query with [min k (len documents)] results. *)
Lemma search_count s idx query q k :
  SearchContract -> AnswerContract ->
  index s = Some idx ->
  ntotal idx = length (documents s) ->
  encode query = Some q ->
  1 <= k ->
  exists results,
    search s query k = inr results
    /\ length results = Nat.min (Z.to_nat k) (length (documents s)).
Proof.
  intros SC AC Hidx Hn Hq Hk.
  destruct (sc_total SC idx q k Hk) as (hits & Hs & _).
  destruct (sc_labels SC idx q k hits Hs) as [_ Hl].
  unfold search. rewrite Hidx, Hq, Hs. eexists. split; [done|].
  rewrite results_count by (by rewrite <- Hn).
  rewrite (ac_count AC idx q k hits Hs). by rewrite Hn.
Qed.

(** Loading what [save] wrote gives a store that answers alike. *)
Lemma load_saved_search s p d query k :
  SerializeContract ->
  exists s', load init p (save s p d) = inr s'
             /\ documents s' = documents s
             /\ search s' query k = search s query k.
Proof.
  intros SR. unfold load, save. simpl. rewrite lookup_insert_eq. simpl.
  destruct (index s) as [idx|] eqn:Hidx; simpl.
  - destruct (ser_roundtrip SR idx) as (idx' & Hd & _ & Hsame).
    rewrite Hd. eexists. split; [done|]. split; [done|].
    unfold search. simpl. rewrite Hidx.
    destruct (encode query); [|done]. by rewrite Hsame.
  - eexists. split; [done|]. split; [done|].
    unfold search. simpl. by rewrite Hidx.
Qed.

(** The results are the hits whose label is a position of [documents],
    one for one and in order. *)
Lemma results_in_range docs hits :
  Forall2 (from_hit docs) (omap (hit_result docs) hits)
          (filter (fun h => 0 <= h.2 < Z.of_nat (length docs)) hits).
Proof.
  induction hits as [|[q i] hits IH]; [constructor|].
  rewrite SearchFacts.omap_cons, filter_cons.
  destruct (decide (0 <= (q, i).2 < Z.of_nat (length docs))) as [Hin|Hout];
    cbn [snd] in *.
  - destruct (SearchFacts.hit_result_in_range docs q i Hin) as [r Hr].
    rewrite Hr. constructor; [|done].
    apply SearchFacts.hit_result_Some in Hr as (_ & Hd & Hs).
    unfold from_hit. cbn [fst snd]. split; [lia|done].
  - replace (hit_result docs (q, i)) with (@None SearchResult); [done|].
    unfold hit_result.
    destruct (i <? Z.of_nat (length docs)) eqn:E1; [|done].
    destruct (i >=? 0) eqn:E2; [|done]. lia.
Qed.

(** *** A whole run *)

Lemma add_documents_result s docs out d :
  (add_documents s docs out d).1 = finish s docs out (run_batches docs d).
Proof.
  unfold add_documents. by destruct (finish s docs out (run_batches docs d)).
Qed.

Lemma add_documents_triple s docs out d :
  add_documents s docs out d
  = ((finish s docs out (run_batches docs d)).1,
     (finish s docs out (run_batches docs d)).2,
     st_log (run_batches docs d)).
Proof.
  unfold add_documents. by destruct (finish s docs out (run_batches docs d)).
Qed.

(** A first run keeps the survivors of the whole input; it has an
    embedding as soon as one document survives. *)
Lemma fresh_run docs d :
  info d = None ->
  acc_docs (run_batches docs d) = filter survives docs
  /\ acc_embs (run_batches docs d) = omap embedding_of docs.
Proof.
  intros Hi.
  destruct (run_batches_acc docs d 0 [] [] (resume_no_info d Hi) ltac:(lia))
    as [Hd He].
  by rewrite Hd, He.
Qed.

Lemma fresh_run_lengths docs d :
  info d = None ->
  length (acc_docs (run_batches docs d)) = length (acc_embs (run_batches docs d)).
Proof.
  intros Hi. destruct (fresh_run docs d Hi) as [-> ->].
  apply paired_length, paired_survivors.
Qed.

Lemma fresh_run_built docs d x :
  info d = None -> x ∈ docs -> survives x ->
  acc_embs (run_batches docs d) <> [].
Proof.
  intros Hi Hx Hs. destruct (fresh_run docs d Hi) as [_ ->].
  by eapply survivor_embedding.
Qed.

(** The store that a run with an embedding ends in answers
    [min k (len documents)] results. *)
Lemma built_search_count s docs out d query q k :
  SearchContract -> AnswerContract -> BuildContract ->
  length (acc_docs (run_batches docs d)) = length (acc_embs (run_batches docs d)) ->
  acc_embs (run_batches docs d) <> [] ->
  encode query = Some q ->
  1 <= k ->
  exists results,
    search (add_documents s docs out d).1.1 query k = inr results
    /\ length results
       = Nat.min (Z.to_nat k) (length (documents (add_documents s docs out d).1.1)).
Proof.
  intros SC AC BC Hp Hne Hq Hk.
  rewrite add_documents_store.
  destruct (finish_built s docs out (run_batches docs d) Hne) as (Hs & _).
  apply (search_count _ (index_build (acc_embs (run_batches docs d))) query q k);
    try done.
  - by rewrite Hs.
  - rewrite Hs. simpl. by rewrite (bc_ntotal BC).
Qed.


(** A second run over the same input, on the disk the first one left. *)
Lemma rebuild_same s docs out d :
  info d = None ->
  acc_embs (run_batches docs d) <> [] ->
  add_documents (add_documents s docs out d).1.1 docs out
                (add_documents s docs out d).1.2
  = add_documents s docs out d.
Proof.
  intros Hi Hne.
  rewrite (add_documents_triple s docs out d). cbn [fst snd].
  set (st1 := run_batches docs d) in *.
  destruct (finish_built s docs out st1 Hne) as (Fs & Fi & Fst & Fc).
  set (s1 := (finish s docs out st1).1) in *.
  set (d1 := (finish s docs out st1).2) in *.
  rewrite (add_documents_triple s1 docs out d1).
  set (st2 := run_batches docs d1).
  assert (Hsame : same_progress st2 st1).
  { unfold st1, st2, run_batches, start_state.
    rewrite (resume_no_info d Hi), (resume_no_info d1 Fi).
    by apply foldl_process_batch_progress. }
  destruct Hsame as (Hd & He & Hl).
  assert (Hne2 : acc_embs st2 <> []) by (by rewrite He).
  destruct (finish_built s1 docs out st2 Hne2) as (Gs & Gi & Gst & Gc).
  assert (E1 : (finish s1 docs out st2).1 = s1)
    by (by rewrite Gs, Fs, Hd, He).
  assert (E2 : (finish s1 docs out st2).2 = d1); [|by rewrite E1, E2, Hl].
  apply disk_eq.
  - by rewrite Gi, Fi.
  - intros j. rewrite Gc, Fc.
    destruct (decide (0 <= j < total_batches docs)) as [Hj|Hj]; [done|].
    unfold st2.
    rewrite run_batches_ckpts_outside
      by (rewrite resume_no_info by done; simpl; lia).
    rewrite Fc. by rewrite decide_False by done.
  - rewrite Gst, Fst, Hd, He. unfold st2.
    rewrite run_batches_stores, Fst.
    destruct out as [p|]; [|done]. by rewrite insert_insert_eq.
Qed.

End Facts.
End StoreMoreFacts.

(** ** Loading and chunking *)

Module LoaderFacts.
Import Text Store StoreFacts StoreMore StoreMoreFacts Loader.

Local Open Scope Z_scope.

Section Facts.
Context `{FileSystem} `{Splitter} `{IndexBackend}.

Lemma foldl_add_page pages : forall acc,
  foldl add_page acc pages = acc ++ mjoin (page_line <$> pages).
Proof.
  induction pages as [|pg pages IH]; intros acc; simpl.
  - by rewrite app_nil_r.
  - rewrite IH. destruct pg; simpl; by rewrite <- ?app_assoc.
Qed.

Lemma extract_text_pages pdf_path pages :
  read_pdf pdf_path = Some pages ->
  extract_text_from_pdf pdf_path = mjoin (page_line <$> pages).
Proof.
  intros E. unfold extract_text_from_pdf. rewrite E.
  by rewrite foldl_add_page.
Qed.

Lemma page_lines_nil pages :
  mjoin (page_line <$> pages) = [] <-> Forall (fun pg => pg = PageFails) pages.
Proof.
  induction pages as [|pg pages IH]; simpl.
  - split; [constructor|done].
  - destruct pg as [t|]; simpl.
    + split.
      * intros E. apply app_eq_nil in E as [E _].
        apply app_eq_nil in E as [_ E]. done.
      * intros Hf. by apply Forall_cons in Hf as [? _].
    + rewrite IH. split.
      * intros Hf. by constructor.
      * intros Hf. by apply Forall_cons in Hf as [_ ?].
Qed.

Lemma add_textbook_textbook_of base textbooks pdf_path :
  add_textbook base textbooks pdf_path
  = textbooks ++ option_list (textbook_of base pdf_path).
Proof.
  unfold add_textbook, textbook_of.
  destruct (extract_text_from_pdf pdf_path); simpl; [by rewrite app_nil_r|done].
Qed.

Lemma foldl_add_textbook base paths : forall textbooks,
  foldl (add_textbook base) textbooks paths
  = textbooks ++ omap (textbook_of base) paths.
Proof.
  induction paths as [|p paths IH]; intros tbs; cbn [foldl].
  - by rewrite app_nil_r.
  - rewrite IH, add_textbook_textbook_of, SearchFacts.omap_cons.
    destruct (textbook_of base p); simpl; by rewrite <- ?app_assoc, ?app_nil_r.
Qed.

Lemma load_textbooks_omap base :
  load_textbooks base = omap (textbook_of base) (get_all_pdf_paths base).
Proof. unfold load_textbooks. by rewrite foldl_add_textbook. Qed.

Lemma textbook_of_Some base p tb :
  textbook_of base p = Some tb ->
  tb_path tb = p /\ tb_content tb = extract_text_from_pdf p
  /\ tb_content tb <> []
  /\ tb_category tb = dirname (relpath p base)
  /\ tb_filename tb = basename p.
Proof.
  unfold textbook_of. destruct (extract_text_from_pdf p) eqn:E; [done|].
  by intros [= <-].
Qed.

Lemma textbook_of_None base p :
  textbook_of base p = None <-> extract_text_from_pdf p = [].
Proof.
  unfold textbook_of. by destruct (extract_text_from_pdf p).
Qed.

Lemma load_textbooks_paths base :
  tb_path <$> load_textbooks base
  = filter (fun p => extract_text_from_pdf p <> []) (get_all_pdf_paths base).
Proof.
  rewrite load_textbooks_omap.
  induction (get_all_pdf_paths base) as [|p paths IH]; [done|].
  rewrite SearchFacts.omap_cons, filter_cons.
  destruct (textbook_of base p) as [tb|] eqn:E.
  - apply textbook_of_Some in E as (Hp & Hc & Hne & _).
    rewrite decide_True by (by rewrite <- Hc).
    rewrite fmap_cons, IH. by rewrite Hp.
  - apply textbook_of_None in E. rewrite decide_False by (by intros ?). done.
Qed.

(** *** Chunking *)

Lemma add_chunks_imap tb chunks : forall i document_chunks,
  add_chunks tb i document_chunks chunks
  = document_chunks ++ imap (fun j => chunk_doc tb (i + j)) chunks.
Proof.
  induction chunks as [|c chunks IH]; intros i acc; simpl.
  - by rewrite app_nil_r.
  - rewrite IH, <- app_assoc. simpl. rewrite Nat.add_0_r.
    do 2 f_equal. apply imap_ext. intros j x _. simpl. f_equal. lia.
Qed.

Lemma foldl_chunks_of tbs : forall acc,
  foldl (fun document_chunks tb =>
           add_chunks tb 0 document_chunks (split_text (tb_content tb)))
        acc tbs
  = acc ++ (tbs ≫= chunks_of).
Proof.
  induction tbs as [|tb tbs IH]; intros acc; simpl.
  - by rewrite app_nil_r.
  - rewrite IH, add_chunks_imap, <- app_assoc. done.
Qed.

Lemma process_textbooks_bind tbs : process_textbooks tbs = tbs ≫= chunks_of.
Proof. unfold process_textbooks. by rewrite foldl_chunks_of. Qed.

Lemma chunks_of_content tb :
  content <$> chunks_of tb = (fun c => Some (PyStr c)) <$> split_text (tb_content tb).
Proof.
  unfold chunks_of. generalize (split_text (tb_content tb)). intros l.
  rewrite fmap_imap. unfold compose. simpl.
  induction l as [|c l IH] using rev_ind; [done|].
  rewrite imap_app, fmap_app, IH. simpl. done.
Qed.

Lemma chunks_of_keys tb :
  chunk_key <$> chunks_of tb
  = (fun i => (tb_path tb, i)) <$> seqZ 0 (Z.of_nat (length (split_text (tb_content tb)))).
Proof.
  unfold chunks_of. generalize (split_text (tb_content tb)). intros l.
  induction l as [|c l IH] using rev_ind; [done|].
  rewrite imap_app, fmap_app, IH, length_app. simpl.
  rewrite Nat2Z.inj_add. rewrite seqZ_app by lia. rewrite fmap_app. simpl.
  rewrite Nat.add_0_r. done.
Qed.

Lemma chunk_keys_NoDup tbs :
  NoDup (tb_path <$> tbs) -> NoDup (chunk_key <$> (tbs ≫= chunks_of)).
Proof.
  induction tbs as [|tb tbs IH]; simpl; [constructor|].
  intros Hnd. apply NoDup_cons in Hnd as [Hnotin Hnd].
  rewrite fmap_app. apply NoDup_app. split; [|split].
  - rewrite chunks_of_keys. apply NoDup_fmap_2.
    + by intros i j [= ->].
    + apply NoDup_seqZ.
  - intros key Hin Hin'. rewrite chunks_of_keys in Hin.
    apply list_elem_of_fmap in Hin as (i & -> & _).
    apply list_elem_of_fmap in Hin' as (d & Hk & Hd).
    apply list_elem_of_bind in Hd as (tb' & Hd & Htb').
    apply Hnotin. apply list_elem_of_fmap. exists tb'. split; [|done].
    assert (Hk' : chunk_key d ∈ chunk_key <$> chunks_of tb').
    { apply list_elem_of_fmap. by exists d. }
    rewrite chunks_of_keys in Hk'.
    apply list_elem_of_fmap in Hk' as (j & Hj & _).
    rewrite <- Hk in Hj. by inversion Hj.
  - by apply IH.
Qed.

End Facts.
End LoaderFacts.

(** ** The flat index meets the contracts *)

Module FlatFacts.
Import Text Store Flat SearchFacts.

Local Open Scope Z_scope.

#[local] Instance by_distance_trans : Transitive by_distance.
Proof. intros a b c. apply Qle_trans. Qed.

#[local] Instance by_distance_total : Total by_distance.
Proof.
  intros a b. unfold by_distance.
  destruct (Qlt_le_dec a.1 b.1) as [Hlt|Hle]; [left|right]; [|done].
  by apply Qlt_le_weak.
Qed.

Lemma dist2_nonneg x y : (0 <= dist2 x y)%Q.
Proof.
  revert y; induction x as [|a x IH]; intros [|b y]; simpl; try apply Qle_refl.
  specialize (IH y).
  assert (0 <= (a - b) * (a - b))%Q; [|lra].
  destruct (Qlt_le_dec (a - b) 0) as [Hneg|Hpos].
  - assert (E : ((a - b) * (a - b) == (- (a - b)) * (- (a - b)))%Q) by ring.
    rewrite E. apply Qmult_le_0_compat; lra.
  - by apply Qmult_le_0_compat.
Qed.

Lemma scored_labels xb q : (scored xb q).*2 = seqZ 0 (Z.of_nat (length xb)).
Proof.
  unfold scored. apply snd_zip.
  rewrite length_fmap, length_seqZ. lia.
Qed.

Lemma scored_nonneg xb q : Forall (fun h => 0 <= h.1)%Q (scored xb q).
Proof.
  apply Forall_forall. intros [d i] Hin. simpl.
  assert (Hd : d ∈ (scored xb q).*1) by (apply (list_elem_of_fmap_2 fst _ _ Hin)).
  unfold scored in Hd. rewrite fst_zip in Hd
    by (rewrite length_fmap, length_seqZ; lia).
  apply list_elem_of_fmap in Hd as (v & -> & _). apply dist2_nonneg.
Qed.

Lemma flat_search_unfold xb q k :
  1 <= k ->
  flat_search xb q k
  = Some (ranked xb q k
          ++ replicate (Z.to_nat k - length (ranked xb q k)) (PAD_DISTANCE, -1)).
Proof.
  intros Hk. unfold flat_search, ranked.
  by rewrite (proj2 (Z.ltb_ge k 1)) by lia.
Qed.

Lemma flat_search_None xb q k : k < 1 -> flat_search xb q k = None.
Proof.
  intros Hk. unfold flat_search. by rewrite (proj2 (Z.ltb_lt k 1)) by lia.
Qed.

Lemma ranked_sublist xb q k :
  ranked xb q k `sublist_of` merge_sort by_distance (scored xb q).
Proof. apply sublist_take. Qed.

Lemma ranked_labels xb q k :
  NoDup (ranked xb q k).*2
  /\ Forall (fun h => 0 <= h.2 < Z.of_nat (length xb)) (ranked xb q k).
Proof.
  pose proof (merge_sort_Permutation by_distance (scored xb q)) as Hp.
  split.
  - apply (sublist_NoDup _ (merge_sort by_distance (scored xb q)).*2).
    + rewrite Hp, scored_labels. apply NoDup_seqZ.
    + apply fmap_sublist, ranked_sublist.
  - apply Forall_take. rewrite Hp.
    apply Forall_forall. intros h Hh.
    assert (Hl : h.2 ∈ (scored xb q).*2) by (by apply list_elem_of_fmap_2).
    rewrite scored_labels in Hl. apply elem_of_seqZ in Hl. lia.
Qed.

Lemma valid_hits_answer xb q k :
  valid_hits (ranked xb q k
              ++ replicate (Z.to_nat k - length (ranked xb q k)) (PAD_DISTANCE, -1))
  = ranked xb q k.
Proof.
  unfold valid_hits. rewrite filter_app.
  rewrite (filter_all _ (ranked xb q k)).
  - rewrite filter_none; [by rewrite app_nil_r|].
    apply Forall_replicate. simpl. lia.
  - eapply Forall_impl; [apply ranked_labels|]. simpl. intros h. lia.
Qed.

Lemma ranked_sorted xb q k : Sorted by_distance (ranked xb q k).
Proof.
  apply StronglySorted_Sorted.
  pose proof (StronglySorted_merge_sort by_distance (scored xb q)) as Hs.
  rewrite <- (take_drop (Z.to_nat k)) in Hs.
  by apply StronglySorted_app_1_l in Hs.
Qed.

Lemma ranked_nonneg xb q k : Forall (fun h => 0 <= h.1)%Q (ranked xb q k).
Proof.
  apply Forall_take.
  rewrite (merge_sort_Permutation by_distance (scored xb q)).
  apply scored_nonneg.
Qed.

Lemma flat_search_Some xb q k hits :
  flat_search xb q k = Some hits ->
  1 <= k
  /\ hits = ranked xb q k
            ++ replicate (Z.to_nat k - length (ranked xb q k)) (PAD_DISTANCE, -1).
Proof.
  intros E. destruct (decide (1 <= k)) as [Hk|Hk].
  - rewrite flat_search_unfold in E by done. split; congruence.
  - rewrite flat_search_None in E by lia. done.
Qed.

(** The exhaustive index meets the search contract. *)
Lemma flat_search_contract : SearchContract.
Proof.
  split.
  - intros xb q k Hk. eexists. split; [by apply flat_search_unfold|].
    rewrite length_app, length_replicate.
    assert (length (ranked xb q k) <= Z.to_nat k)%nat; [|lia].
    unfold ranked. rewrite length_take. lia.
  - intros xb q k hits E. apply flat_search_Some in E as [Hk ->].
    rewrite valid_hits_answer. destruct (ranked_labels xb q k) as [Hn Hf].
    split; [done|]. apply Forall_app. split.
    + eapply Forall_impl; [exact Hf|]. simpl. intros h. lia.
    + apply Forall_replicate. simpl. lia.
  - intros xb q k hits E. apply flat_search_Some in E as [Hk ->].
    rewrite valid_hits_answer. apply ranked_sorted.
  - intros xb q k hits E. apply flat_search_Some in E as [Hk ->].
    rewrite valid_hits_answer. apply ranked_nonneg.
Qed.

Lemma flat_serialize_contract : SerializeContract.
Proof. split. intros xb. by exists xb. Qed.

End FlatFacts.

(** ** The concrete index meets the other contracts *)

Module FlatMoreFacts.
Import Text Store StoreFacts StoreMore Flat FlatFacts.

Local Open Scope Z_scope.

Lemma flat_build_contract : BuildContract.
Proof. by split. Qed.

Lemma length_scored xb q : length (scored xb q) = length xb.
Proof.
  unfold scored. rewrite length_zip_with, length_fmap, length_seqZ. lia.
Qed.

Lemma flat_answer_contract : AnswerContract.
Proof.
  split. intros idx q k hits Hs.
  apply flat_search_Some in Hs as [Hk ->].
  rewrite valid_hits_answer. unfold ranked. rewrite length_take.
  rewrite (Permutation_length (merge_sort_Permutation _ _)), length_scored.
  done.
Qed.

End FlatMoreFacts.

(** * The claims *)

Module Claims.
Import Text TextFacts Shape ShapeFacts Store StoreFacts SearchFacts.

Local Open Scope Z_scope.

(** ** The text normalizer *)

(** C8: [clean_text] is idempotent: cleaning a cleaned text gives the
    same text again, for every input value (a string or not). *)
Theorem C8_clean_text_idempotent (v : pyval) :
  clean_text (PyStr (clean_text v)) = clean_text v.
Proof.
  simpl. apply normalized_fixed, clean_text_normalized.
Qed.



Section Pipeline.
Context `{IndexBackend}.

(** ** The batch loop *)


(** C3: when the checkpoint-info record cannot be read, or the artifact
    of the batch it names is missing or cannot be read, [add_documents]
    starts at batch 0 with empty accumulators: it ends in the store, and
    with the writes, of a run that found no info record at all, every
    surviving document of the input included. *)
Theorem C3_unusable_checkpoint_restarts
    (s : VectorStore) (docs : list Doc) (out : option string) (d : Disk) :
  unusable_checkpoint d ->
  start_state d
    = (0, {| acc_docs := []; acc_embs := []; st_disk := d; st_log := [] |})
  /\ (add_documents s docs out d).1.1
     = (add_documents s docs out (remove_info d)).1.1
  /\ (add_documents s docs out d).2
     = (add_documents s docs out (remove_info d)).2
  /\ documents (add_documents s docs out d).1.1 = filter survives docs.
Proof.
  intros Hu. pose proof (resume_unusable d Hu) as Hr.
  assert (Hr' : resume (remove_info d) = (0, [], []))
    by (by apply resume_no_info).
  assert (Hsame : same_progress (run_batches docs d)
                                (run_batches docs (remove_info d))).
  { unfold run_batches, start_state. rewrite Hr, Hr'.
    by apply foldl_process_batch_progress. }
  split; [|split; [|split]].
  - unfold start_state. by rewrite Hr.
  - rewrite !add_documents_store. by apply finish_store.
  - rewrite !add_documents_log. apply Hsame.
  - rewrite add_documents_documents.
    destruct (run_batches_acc docs d 0 [] [] Hr ltac:(lia)) as [-> _].
    done.
Qed.

(** C7: a document the model fails on is passed over and the run goes
    on.  From the batch a run starts at, [add_documents] appends exactly
    the documents whose cleaned text is not empty and is encoded, with
    their embeddings, whatever the model does on the other documents. *)
Theorem C7_item_failures_are_skipped
    (s : VectorStore) (docs : list Doc) (out : option string) (d : Disk)
    (start : Z) (ds : list Doc) (es : list Emb) :
  resume d = (start, ds, es) ->
  0 <= start ->
  let rest := drop (Z.to_nat (start * BATCH_SIZE)) docs in
  let added := filter survives rest in
  documents (add_documents s docs out d).1.1 = ds ++ added
  /\ acc_embs (run_batches docs d) = es ++ omap embedding_of rest
  /\ paired added (omap embedding_of rest)
  /\ forall x, x ∈ rest ->
       (embedding_of x = None -> x ∉ added)
       /\ (is_Some (embedding_of x) -> x ∈ added).
Proof.
  intros Hr Hs rest added.
  destruct (run_batches_acc docs d start ds es Hr Hs) as [Hd He].
  rewrite add_documents_documents.
  split; [exact Hd|]. split; [exact He|]. split; [apply paired_survivors|].
  intros x Hx. unfold added. rewrite list_elem_of_filter. split.
  - intros Hn [[e He'] _]. congruence.
  - intros Hsome. split; [exact Hsome|exact Hx].
Qed.

(** C10: a run that starts with empty accumulators ends with the
    surviving documents of the input in the order of the input, each
    once: the final documents are a subsequence of the input. *)
Theorem C10_documents_keep_input_order
    (s : VectorStore) (docs : list Doc) (out : option string) (d : Disk)
    (start : Z) :
  resume d = (start, [], []) ->
  0 <= start ->
  documents (add_documents s docs out d).1.1
    = filter survives (drop (Z.to_nat (start * BATCH_SIZE)) docs)
  /\ documents (add_documents s docs out d).1.1 `sublist_of` docs.
Proof.
  intros Hr Hs. rewrite add_documents_documents.
  destruct (run_batches_acc docs d start [] [] Hr Hs) as [-> _]. simpl.
  split; [done|].
  trans (drop (Z.to_nat (start * BATCH_SIZE)) docs).
  - apply sublist_filter.
  - apply sublist_drop.
Qed.

(** ** Persistence and retrieval *)

(** C4: loading what [save] wrote gives the documents of the saved
    store; a store saved without an index loads without one, and a store
    saved with an index loads with an index that answers every search
    with the same labels and distances, so that [search] gives the same
    results, provided faiss reads a serialized index back as an index
    that answers alike. *)
Theorem C4_save_load_roundtrip
    (s s0 : VectorStore) (p : string) (d : Disk) :
  SerializeContract ->
  exists s', load s0 p (save s p d) = inr s'
    /\ documents s' = documents s
    /\ (index s = None -> index s' = None)
    /\ (forall idx, index s = Some idx ->
          exists idx', index s' = Some idx'
            /\ forall q k, index_search idx' q k = index_search idx q k)
    /\ forall query k, search s' query k = search s query k.
Proof.
  intros [Hrt]. unfold load, save. simpl. rewrite lookup_insert_eq. simpl.
  destruct (index s) as [idx|] eqn:Hi; simpl.
  - destruct (Hrt idx) as (idx' & -> & _ & Hsame).
    eexists. split; [done|]. simpl. repeat split; try done.
    + intros ? [= <-]. by exists idx'.
    + intros query k. unfold search. simpl. rewrite Hi.
      destruct (encode query); [|done]. by rewrite Hsame.
  - eexists. split; [done|]. simpl. repeat split; try done.
    intros query k. unfold search. simpl. by rewrite Hi.
Qed.

(** C5: on a store whose index holds [N] vectors, for [k >= 1], when
    the model encodes the query [search] returns at most [min k N]
    results, by descending score; every result carries the document at
    the label of a hit and the score [1 / (1 + d)] of the distance [d]
    of that hit, which lies in (0, 1].  When the model fails on the
    query [search] raises.  The index is any one that meets the contract
    of the flat L2 index. *)
Theorem C5_search_results
    (s : VectorStore) (idx : Index) (query : text) (k : Z) :
  SearchContract ->
  index s = Some idx ->
  1 <= k ->
  match encode query with
  | None => search s query k = inl BackendError
  | Some q =>
      exists hits results,
        index_search idx q k = Some hits
        /\ search s query k = inr results
        /\ (length results <= Nat.min (Z.to_nat k) (ntotal idx))%nat
        /\ StronglySorted (fun a b => score b <= score a)%Q results
        /\ (exists kept, kept `sublist_of` hits
                         /\ Forall2 (from_hit (documents s)) results kept)
        /\ Forall (fun r => exists dist, (0 <= dist)%Q
                              /\ score r = (1 / (1 + dist))%Q
                              /\ (0 < score r)%Q /\ (score r <= 1)%Q) results
  end.
Proof.
  intros [Htot Hlab Hsort Hnn] Hi Hk. unfold search. rewrite Hi.
  destruct (encode query) as [q|]; [|done].
  destruct (Htot idx q k Hk) as (hits & E & Hlen). rewrite E.
  destruct (Hlab idx q k hits E) as [Hnd Hlt].
  exists hits, (omap (hit_result (documents s)) hits).
  split; [done|]. split; [done|]. split; [|split; [|split]].
  - apply Nat.min_glb.
    + rewrite <- Hlen. apply length_omap_le.
    + rewrite results_from_valid_hits.
      etrans; [apply length_omap_le|]. by apply valid_hits_bound.
  - apply results_sorted; eauto.
  - apply results_from_hits.
  - apply results_scores; eauto.
Qed.

(** C6: [search] on a store without an index fails with the empty-store
    error for every query and every [k]; it returns no result list. *)
Theorem C6_search_without_index_fails
    (s : VectorStore) (query : text) (k : Z) :
  index s = None ->
  search s query k = inl EmptyStore
  /\ forall results, search s query k <> inr results.
Proof.
  intros Hi. unfold search. rewrite Hi. done.
Qed.

End Pipeline.

(** ** Runs on the concrete model *)

Import Flat FlatFacts.

(** C1: the batch whose cleaned texts are all empty writes the
    checkpoint-info record and no checkpoint artifact.  On seventeen
    chunks of which the second batch is blank, the run writes artifacts
    for the batches 0 and 2 only, while the info record goes through 1, 2
    and 3; a run killed after the second batch leaves [next_batch = 2]
    with no artifact for batch 1, and the next run starts over from
    batch 0 with empty accumulators. *)
Theorem C1_empty_batch_writes_no_artifact :
  let log := (add_documents init three_batches None empty_disk).2 in
  let killed := st_disk (run_batches_upto 2 three_batches empty_disk) in
  checkpoint_batches log = [0; 2]
  /\ info_values log = [1; 2; 3]
  /\ info killed = Some (InfoRecord (Some 2))
  /\ ckpts killed !! 1 = None
  /\ is_Some (ckpts killed !! 0)
  /\ resume killed = (0, [], []).
Proof.
  cbv zeta. repeat split; try (vm_compute; reflexivity).
  vm_compute. by eexists.
Qed.

(** ** The statements at the sample inputs *)

Lemma empty_disk_paired : disk_paired empty_disk.
Proof. intros i c Hl. simpl in Hl. by rewrite lookup_empty in Hl. Qed.




(** The scenario: [next_batch = 2] and no artifact for batch 1. *)
Lemma C3_witness :
  unusable_checkpoint stale_disk
  /\ start_state stale_disk
     = (0, {| acc_docs := []; acc_embs := []; st_disk := stale_disk;
              st_log := [] |})
  /\ (add_documents init mixed None stale_disk).1.1
     = (add_documents init mixed None (remove_info stale_disk)).1.1
  /\ (add_documents init mixed None stale_disk).2
     = (add_documents init mixed None (remove_info stale_disk)).2
  /\ documents (add_documents init mixed None stale_disk).1.1
     = filter survives mixed.
Proof.
  assert (Hu : unusable_checkpoint stale_disk).
  { right. exists (Some 2). split; [reflexivity|]. left. reflexivity. }
  split; [exact Hu|].
  exact (C3_unusable_checkpoint_restarts init mixed None stale_disk Hu).
Defined.

(** Resuming [mixed] after its first batch: the refused chunk and the
    blank chunk of the second batch are left out, the two others are
    appended. *)
Lemma C7_witness :
  let rest := drop (Z.to_nat (1 * BATCH_SIZE)) mixed in
  let added := filter survives rest in
  resume resumable_disk
    = (1, ck_documents first_checkpoint, ck_embeddings first_checkpoint)
  /\ 0 <= 1
  /\ documents (add_documents init mixed None resumable_disk).1.1
     = ck_documents first_checkpoint ++ added
  /\ acc_embs (run_batches mixed resumable_disk)
     = ck_embeddings first_checkpoint ++ omap embedding_of rest
  /\ paired added (omap embedding_of rest)
  /\ forall x, x ∈ rest ->
       (embedding_of x = None -> x ∉ added)
       /\ (is_Some (embedding_of x) -> x ∈ added).
Proof.
  intros rest added.
  assert (Hr : resume resumable_disk
               = (1, ck_documents first_checkpoint,
                  ck_embeddings first_checkpoint)) by reflexivity.
  assert (Hs : 0 <= 1) by lia.
  split; [exact Hr|]. split; [exact Hs|].
  exact (C7_item_failures_are_skipped init mixed None resumable_disk 1
           (ck_documents first_checkpoint) (ck_embeddings first_checkpoint)
           Hr Hs).
Defined.

(** A first run of [mixed], on an empty checkpoint directory. *)
Lemma C10_witness :
  resume empty_disk = (0, [], [])
  /\ 0 <= 0
  /\ documents (add_documents init mixed None empty_disk).1.1
     = filter survives (drop (Z.to_nat (0 * BATCH_SIZE)) mixed)
  /\ documents (add_documents init mixed None empty_disk).1.1
     `sublist_of` mixed.
Proof.
  assert (Hr : resume empty_disk = (0, [], [])) by reflexivity.
  assert (Hs : 0 <= 0) by lia.
  split; [exact Hr|]. split; [exact Hs|].
  exact (C10_documents_keep_input_order init mixed None empty_disk 0 Hr Hs).
Defined.

(** Saving and loading the store of three vectors. *)
Lemma C4_witness :
  SerializeContract
  /\ exists s', load init "store.pkl" (save demo_store "store.pkl" empty_disk)
                = inr s'
       /\ documents s' = documents demo_store
       /\ (index demo_store = None -> index s' = None)
       /\ (forall idx, index demo_store = Some idx ->
             exists idx', index s' = Some idx'
               /\ forall q k, index_search idx' q k = index_search idx q k)
       /\ forall query k, search s' query k = search demo_store query k.
Proof.
  split; [exact flat_serialize_contract|].
  exact (C4_save_load_roundtrip demo_store init "store.pkl" empty_disk
           flat_serialize_contract).
Defined.

(** Five neighbours asked of the store of three vectors. *)
Lemma C5_witness :
  SearchContract
  /\ index demo_store = Some demo_index
  /\ 1 <= 5
  /\ exists hits results,
       index_search demo_index [inject_Z 5; inject_Z 566] 5 = Some hits
       /\ search demo_store (of_string "query") 5 = inr results
       /\ (length results <= Nat.min (Z.to_nat 5) (ntotal demo_index))%nat
       /\ StronglySorted (fun a b => score b <= score a)%Q results
       /\ (exists kept, kept `sublist_of` hits
                        /\ Forall2 (from_hit (documents demo_store)) results kept)
       /\ Forall (fun r => exists dist, (0 <= dist)%Q
                             /\ score r = (1 / (1 + dist))%Q
                             /\ (0 < score r)%Q /\ (score r <= 1)%Q) results.
Proof.
  assert (Hi : index demo_store = Some demo_index) by reflexivity.
  assert (Hk : 1 <= 5) by lia.
  split; [exact flat_search_contract|]. split; [exact Hi|]. split; [exact Hk|].
  exact (C5_search_results demo_store demo_index (of_string "query") 5
           flat_search_contract Hi Hk).
Defined.

(** A store that was only initialized. *)
Lemma C6_witness :
  index init = None
  /\ search init (of_string "query") 5 = inl EmptyStore
  /\ forall results, search init (of_string "query") 5 <> inr results.
Proof.
  assert (Hi : index init = None) by reflexivity.
  split; [exact Hi|].
  exact (C6_search_without_index_fails init (of_string "query") 5 Hi).
Defined.

End Claims.

(** * Further properties of the code *)

Module Extras.
Import Text TextFacts Shape ShapeFacts.
Import Store StoreFacts StoreMore StoreMoreFacts SearchFacts.
Import Loader LoaderFacts.

Local Open Scope Z_scope.

(** ** The text normalizer *)

(** X1: [clean_text] gives the empty text exactly when its argument is
    not a string, or is a string all of whose code points are
    whitespace, NUL or of the class [[\x01-\x1F\x7F]] (the empty string
    included). *)
Theorem X1_clean_text_empty_iff_blank (v : pyval) :
  clean_text v = []
  <-> match v with
      | PyStr t => Forall (fun c => is_blank c = true) t
      | PyOther => True
      end.
Proof.
  destruct v as [t|]; simpl; [apply clean_str_nil_iff|done].
Qed.

(** X2: the output of [clean_text] neither starts nor ends with a
    whitespace code point, every whitespace code point in it is U+0020,
    and no two neighbours are both whitespace. *)
Theorem X2_clean_text_whitespace_shape (v : pyval) :
  starts_clean (clean_text v)
  /\ (forall c, last (clean_text v) = Some c -> is_space c = false)
  /\ Forall (fun c => is_space c = true -> c = SPACE) (clean_text v)
  /\ no_double_space (clean_text v).
Proof. apply normalized_shape, clean_text_normalized. Qed.

(** X3: the strings that [clean_text] returns unchanged are exactly the
    normalized ones: no NUL or control code point, whitespace only as
    single spaces between other code points, at most 10000 code points,
    nothing for [strip] to remove. *)
Theorem X3_clean_text_fixed_points (t : text) :
  clean_text (PyStr t) = t <-> normalized t.
Proof.
  simpl. split.
  - intros E. rewrite <- E. apply clean_str_normalized.
  - apply normalized_fixed.
Qed.

(** X4: [clean_text] never makes a string longer, and the code points
    of its output that are not blank are an initial segment of those of
    the input: none is changed, added or moved. *)
Theorem X4_clean_text_keeps_visible_prefix (t : text) :
  visible (clean_text (PyStr t)) `prefix_of` visible t
  /\ (length (clean_text (PyStr t)) <= length t)%nat.
Proof.
  simpl. split; [apply clean_str_visible_prefix|apply length_clean_str].
Qed.

(** X5: on a string of at most 10000 code points [clean_text] loses no
    code point that is not blank. *)
Theorem X5_clean_text_short_keeps_visible (t : text) :
  (N.of_nat (length t) <= 10000)%N ->
  visible (clean_text (PyStr t)) = visible t.
Proof.
  intros Hlen. simpl. apply clean_str_visible_short.
  pose proof MAX_LEN_value. lia.
Qed.

Section Pipeline.
Context `{IndexBackend}.

(** ** The batch loop of [add_documents] *)

(** X6: without a checkpoint info record, the documents of the store
    after [add_documents] are exactly the input documents whose content
    is a string with a code point that is not blank and whose cleaned
    content the model encodes. *)
Theorem X6_document_kept_iff
    (s : VectorStore) (docs : list Doc) (out : option string) (d : Disk)
    (x : Doc) :
  info d = None ->
  x ∈ documents (add_documents s docs out d).1.1
  <-> x ∈ docs
      /\ exists t, content x = Some (PyStr t)
                   /\ ~ Forall (fun c => is_blank c = true) t
                   /\ is_Some (encode (clean_str t)).
Proof.
  intros Hi. rewrite add_documents_documents.
  destruct (fresh_run docs d Hi) as [-> _].
  rewrite list_elem_of_filter, survives_content. tauto.
Qed.

(** X7: a run that starts in an empty checkpoint directory and is
    killed after any number of batches can be run again: the second run
    ends in the store, and with the checkpoint files and the saved
    artifact, of the run that was not killed. *)
Theorem X7_rerun_after_interrupt
    (s : VectorStore) (docs : list Doc) (out : option string) (d : Disk)
    (n : nat) :
  clean_checkpoints d ->
  (add_documents s docs out (st_disk (run_batches_upto n docs d))).1
  = (add_documents s docs out d).1.
Proof.
  intros Hc. rewrite !add_documents_result.
  destruct (rerun_after_kill n docs d Hc) as (Hd & He & Hk).
  by apply finish_ext.
Qed.

(** X8: when the checkpoint names a batch at or past the end of the
    input, [add_documents] processes nothing: it writes no checkpoint,
    and the store holds the documents of the checkpoint, whatever the
    input is, with the index built from the embeddings of the
    checkpoint. *)
Theorem X8_checkpoint_past_end_overrides_input
    (s : VectorStore) (docs : list Doc) (out : option string) (d : Disk)
    (start : Z) (ds : list Doc) (es : list Emb) :
  resume d = (start, ds, es) ->
  total_batches docs <= start ->
  documents (add_documents s docs out d).1.1 = ds
  /\ (add_documents s docs out d).2 = []
  /\ index (add_documents s docs out d).1.1
     = match es with
       | [] => index s
       | _ => Some (index_build es)
       end.
Proof.
  intros Hr Hge.
  assert (Hrun : run_batches docs d
                 = {| acc_docs := ds; acc_embs := es; st_disk := d;
                      st_log := [] |}).
  { rewrite run_batches_past_end by (by rewrite Hr).
    unfold start_state. by rewrite Hr. }
  rewrite add_documents_documents, add_documents_log, add_documents_store, Hrun.
  split; [done|]. split; [done|].
  unfold finish. simpl. by destruct es.
Qed.


(** X10: when no document gets an embedding, [add_documents] leaves the
    index of the store as it was, saves nothing, and removes nothing:
    the info record written by the last batch stays on the disk. *)
Theorem X10_no_embedding_builds_nothing
    (s : VectorStore) (docs : list Doc) (out : option string) (d : Disk)
    (start : Z) (ds : list Doc) :
  resume d = (start, ds, []) ->
  0 <= start ->
  Forall (fun x => ~ survives x) (drop (Z.to_nat (start * BATCH_SIZE)) docs) ->
  (add_documents s docs out d).1.1
    = {| index := index s; documents := ds; embeddings := Some [] |}
  /\ stores (add_documents s docs out d).1.2 = stores d
  /\ (start < total_batches docs ->
      info (add_documents s docs out d).1.2
      = Some (InfoRecord (Some (total_batches docs)))).
Proof.
  intros Hr Hs Hnone.
  destruct (run_batches_acc docs d start ds [] Hr Hs) as [Hd He].
  rewrite filter_none, app_nil_r in Hd by done.
  assert (He' : acc_embs (run_batches docs d) = []).
  { rewrite He. simpl. apply elem_of_nil_inv. intros e He1.
    apply list_elem_of_omap in He1 as (x & Hx & Hx').
    eapply Forall_forall in Hnone; [|exact Hx]. apply Hnone. by exists e. }
  rewrite add_documents_store, add_documents_disk.
  rewrite (finish_empty s docs out _ He'). simpl. rewrite Hd.
  split; [done|]. split; [apply run_batches_stores|].
  intros Hlt. apply run_batches_info. by rewrite Hr.
Qed.

(** X11: building twice is building once: after a run without a
    checkpoint info record in which a document gets an embedding, a
    second [add_documents] of the same input, on the store and the disk
    the first one left, ends in the same store, the same disk and the
    same checkpoint writes. *)
Theorem X11_rebuild_is_idempotent
    (s : VectorStore) (docs : list Doc) (out : option string) (d : Disk)
    (x : Doc) :
  info d = None ->
  x ∈ docs ->
  survives x ->
  add_documents (add_documents s docs out d).1.1 docs out
                (add_documents s docs out d).1.2
  = add_documents s docs out d.
Proof.
  intros Hi Hx Hs. apply rebuild_same; [done|].
  by eapply fresh_run_built.
Qed.

(** X12: [add_documents] writes the info record once for every batch
    from the resume point to the last, with [next_batch] one more than
    the batch, and an artifact exactly for those of these batches that
    have a cleaned text that is not empty, in batch order. *)
Theorem X12_checkpoint_writes_per_batch
    (s : VectorStore) (docs : list Doc) (out : option string) (d : Disk) :
  info_values (add_documents s docs out d).2
  = (fun i => i + 1)
    <$> seqZ (resume d).1.1 (total_batches docs - (resume d).1.1)
  /\ checkpoint_batches (add_documents s docs out d).2
     = filter (has_texts docs)
              (seqZ (resume d).1.1 (total_batches docs - (resume d).1.1)).
Proof. rewrite add_documents_log. apply run_batches_writes. Qed.

(** X13: the artifact written for batch [i] is cumulative: it holds
    what the run resumed with, followed by every document admitted in
    the batches from the resume point up to and including [i], and
    their embeddings. *)
Theorem X13_checkpoint_is_cumulative
    (s : VectorStore) (docs : list Doc) (out : option string) (d : Disk)
    (start : Z) (ds : list Doc) (es : list Emb) (i : Z) (c : CheckpointData) :
  resume d = (start, ds, es) ->
  0 <= start ->
  WroteCheckpoint i c ∈ (add_documents s docs out d).2 ->
  start <= i < total_batches docs
  /\ has_texts docs i
  /\ ck_documents c = ds ++ survivors_between docs start i
  /\ ck_embeddings c = es ++ embeddings_between docs start i.
Proof.
  intros Hr Hs. rewrite add_documents_log.
  unfold run_batches, start_state. rewrite Hr. intros Hin.
  destruct (decide (start < total_batches docs)) as [Hlt|Hge].
  - replace (total_batches docs - start)
      with (Z.of_nat (Z.to_nat (total_batches docs - start))) in Hin by lia.
    destruct (foldl_log_checkpoints docs _ start _ i c Hs Hin)
      as [Hin'|(Hi & Ht & ->)].
    + by apply elem_of_nil in Hin'.
    + split; [lia|]. done.
  - rewrite seqZ_nil in Hin by lia. by apply elem_of_nil in Hin.
Qed.

(** ** Retrieval *)

(** X14: [search] keeps a hit exactly when its label is a position of
    [documents]: the results are the hits with such a label, one for
    one and in order, and a label that is negative or too large is
    passed over without an error. *)
Theorem X14_search_keeps_hits_in_range
    (s : VectorStore) (idx : Index) (query : text) (q : Emb) (k : Z)
    (hits : list (Q * Z)) :
  index s = Some idx ->
  encode query = Some q ->
  index_search idx q k = Some hits ->
  exists results,
    search s query k = inr results
    /\ Forall2 (from_hit (documents s)) results
         (filter (fun h => 0 <= h.2 < Z.of_nat (length (documents s))) hits).
Proof.
  intros Hi Hq Hs. unfold search. rewrite Hi, Hq, Hs.
  eexists. split; [done|]. apply results_in_range.
Qed.

(** X15: the store that [add_documents] builds without a checkpoint
    info record answers a query the model encodes, for [k >= 1], with
    exactly [min k n] results, [n] being the number of admitted
    documents. *)
Theorem X15_built_store_answers_min_k
    (s : VectorStore) (docs : list Doc) (out : option string) (d : Disk)
    (x : Doc) (query : text) (q : Emb) (k : Z) :
  SearchContract -> AnswerContract -> BuildContract ->
  info d = None ->
  x ∈ docs ->
  survives x ->
  encode query = Some q ->
  1 <= k ->
  exists results,
    search (add_documents s docs out d).1.1 query k = inr results
    /\ length results = Nat.min (Z.to_nat k) (length (filter survives docs)).
Proof.
  intros SC AC BC Hi Hx Hsv Hq Hk.
  assert (Hne : acc_embs (run_batches docs d) <> [])
    by (by eapply fresh_run_built).
  destruct (built_search_count s docs out d query q k SC AC BC
              (fresh_run_lengths docs d Hi) Hne Hq Hk) as (results & Hs & Hl).
  exists results. split; [done|].
  rewrite Hl, add_documents_documents.
  by destruct (fresh_run docs d Hi) as [-> _].
Qed.


End Pipeline.

Section Loading.
Context `{FileSystem} `{Splitter} `{IndexBackend}.

(** ** Loading and chunking *)

(** X17: [extract_text_from_pdf] gives the empty text exactly when the
    PDF cannot be read or none of its pages can be extracted; a page
    that extracts, even to the empty text, leaves at least its
    newline. *)
Theorem X17_extract_text_empty_iff (pdf_path : string) :
  extract_text_from_pdf pdf_path = []
  <-> read_pdf pdf_path = None
      \/ exists pages, read_pdf pdf_path = Some pages
                       /\ Forall (fun page => page = PageFails) pages.
Proof.
  destruct (read_pdf pdf_path) as [pages|] eqn:E.
  - rewrite (extract_text_pages pdf_path pages E), page_lines_nil. split.
    + intros Hf. right. by exists pages.
    + intros [?|(pages' & [= <-] & Hf)]; done.
  - unfold extract_text_from_pdf. rewrite E. split; [by left|done].
Qed.

(** X18: [load_textbooks] keeps, in the order of discovery, exactly the
    PDFs whose extracted text is not empty; every textbook carries the
    text of its path, which is not empty, the directory of its path
    relative to the base folder as category, and its base name. *)
Theorem X18_load_textbooks_keeps_nonempty (base_folder : string) :
  tb_path <$> load_textbooks base_folder
  = filter (fun p => extract_text_from_pdf p <> [])
           (get_all_pdf_paths base_folder)
  /\ Forall (fun tb =>
               tb_content tb = extract_text_from_pdf (tb_path tb)
               /\ tb_content tb <> []
               /\ tb_category tb = dirname (relpath (tb_path tb) base_folder)
               /\ tb_filename tb = basename (tb_path tb))
            (load_textbooks base_folder).
Proof.
  split; [apply load_textbooks_paths|].
  rewrite load_textbooks_omap. apply Forall_forall. intros tb Hin.
  apply list_elem_of_omap in Hin as (p & _ & Hp).
  apply textbook_of_Some in Hp as (<- & Hc & Hne & Hcat & Hf). done.
Qed.

(** X19: [process_textbooks] loses and adds nothing: the contents of
    its chunks are the pieces the splitter gives for the first
    textbook, then those for the second, and so on, and within one
    textbook the chunks are numbered from 0. *)
Theorem X19_process_textbooks_chunks (textbooks : list Textbook) :
  content <$> process_textbooks textbooks
  = (fun c => Some (PyStr c))
    <$> (textbooks ≫= fun tb => split_text (tb_content tb))
  /\ chunk_key <$> process_textbooks textbooks
     = textbooks ≫= fun tb =>
         (fun i => (tb_path tb, i))
         <$> seqZ 0 (Z.of_nat (length (split_text (tb_content tb)))).
Proof.
  rewrite process_textbooks_bind.
  induction textbooks as [|tb tbs [IH1 IH2]]; [done|].
  rewrite !bind_cons, !fmap_app, IH1, IH2, chunks_of_content, chunks_of_keys.
  done.
Qed.

(** X20: when the textbooks have different paths, a chunk is named by
    the path and the chunk number in its metadata: no two chunks of
    [process_textbooks] share both. *)
Theorem X20_chunk_keys_unique (textbooks : list Textbook) :
  NoDup (tb_path <$> textbooks) ->
  NoDup (chunk_key <$> process_textbooks textbooks).
Proof.
  intros Hnd. rewrite process_textbooks_bind. by apply chunk_keys_NoDup.
Qed.

(** ** The two commands of main.py *)

(** X21: when no textbook can be loaded and there is no checkpoint
    info record, [build_index] writes no checkpoint file and saves
    nothing at the output path, so a later query of that path fails on
    opening the file when it was not there before. *)
Theorem X21_build_index_nothing_to_load
    (textbooks_folder output_path : string) (d : Disk) :
  load_textbooks textbooks_folder = [] ->
  info d = None ->
  build_index textbooks_folder output_path d
  = ({| index := None; documents := []; embeddings := Some [] |}, d, [])
  /\ forall question k,
       stores d !! output_path = None ->
       retrieve output_path question k
                (build_index textbooks_folder output_path d).1.2
       = inl FileError.
Proof.
  intros Hl Hi.
  assert (Hb : build_index textbooks_folder output_path d
               = ({| index := None; documents := []; embeddings := Some [] |},
                  d, [])).
  { unfold build_index. rewrite Hl.
    unfold process_textbooks, add_documents, run_batches, start_state.
    by rewrite (resume_no_info d Hi). }
  split; [done|]. intros question k Hnone.
  rewrite Hb. unfold retrieve, load. simpl. by rewrite Hnone.
Qed.

(** X22: without a checkpoint info record, the documents of the store
    that [build_index] builds are the admitted chunks of the loaded
    textbooks, in order; when the discovered paths are all different no
    two of them share path and chunk number. *)
Theorem X22_build_index_documents
    (textbooks_folder output_path : string) (d : Disk) :
  info d = None ->
  NoDup (get_all_pdf_paths textbooks_folder) ->
  documents (build_index textbooks_folder output_path d).1.1
  = filter survives (process_textbooks (load_textbooks textbooks_folder))
  /\ NoDup (chunk_key
            <$> documents (build_index textbooks_folder output_path d).1.1).
Proof.
  intros Hi Hnd. unfold build_index.
  rewrite add_documents_documents.
  destruct (fresh_run (process_textbooks (load_textbooks textbooks_folder)) d Hi)
    as [-> _].
  split; [done|].
  apply (sublist_NoDup _
           (chunk_key <$> process_textbooks (load_textbooks textbooks_folder))).
  - rewrite process_textbooks_bind. apply chunk_keys_NoDup.
    rewrite load_textbooks_paths. by apply NoDup_filter.
  - apply fmap_sublist, sublist_filter.
Qed.


End Loading.

(** ** The statements at the sample inputs *)

Import Flat FlatFacts FlatMoreFacts Sample.

Lemma hello_survives i : survives (hello i).
Proof. by exists hello_vec. Qed.

Lemma clean_empty_disk : clean_checkpoints empty_disk.
Proof. by split. Qed.

(** A control character, a run of three kinds of whitespace, a NUL and a
    newline around "a" and "b". *)
Lemma X5_witness :
  (N.of_nat (length untidy) <= 10000)%N
  /\ visible (clean_text (PyStr untidy)) = visible untidy.
Proof.
  assert (Hl : (N.of_nat (length untidy) <= 10000)%N) by (by vm_compute).
  split; [exact Hl|].
  exact (X5_clean_text_short_keeps_visible untidy Hl).
Defined.

(** The first chunk of [mixed], in a first run. *)
Lemma X6_witness :
  info empty_disk = None
  /\ (hello 0 ∈ documents (add_documents init mixed None empty_disk).1.1
      <-> hello 0 ∈ mixed
          /\ exists t, content (hello 0) = Some (PyStr t)
                       /\ ~ Forall (fun c => is_blank c = true) t
                       /\ is_Some (encode (clean_str t))).
Proof.
  assert (Hi : info empty_disk = None) by reflexivity.
  split; [exact Hi|].
  exact (X6_document_kept_iff init mixed None empty_disk (hello 0) Hi).
Defined.

(** [three_batches], killed after its second batch, the one of blank
    pages that leaves no artifact: the second run starts over. *)
Lemma X7_witness :
  clean_checkpoints empty_disk
  /\ (add_documents init three_batches (Some "index.pkl")
        (st_disk (run_batches_upto 2 three_batches empty_disk))).1
     = (add_documents init three_batches (Some "index.pkl") empty_disk).1.
Proof.
  split; [exact clean_empty_disk|].
  exact (X7_rerun_after_interrupt init three_batches (Some "index.pkl")
           empty_disk 2 clean_empty_disk).
Defined.

(** A checkpoint directory left after one batch of eight chunks, and
    an input of one other chunk. *)
Lemma X8_witness :
  resume resumable_disk
    = (1, ck_documents first_checkpoint, ck_embeddings first_checkpoint)
  /\ total_batches [shout 0] <= 1
  /\ documents (add_documents init [shout 0] None resumable_disk).1.1
     = ck_documents first_checkpoint
  /\ (add_documents init [shout 0] None resumable_disk).2 = []
  /\ index (add_documents init [shout 0] None resumable_disk).1.1
     = match ck_embeddings first_checkpoint with
       | [] => index init
       | _ => Some (index_build (ck_embeddings first_checkpoint))
       end.
Proof.
  assert (Hr : resume resumable_disk
               = (1, ck_documents first_checkpoint,
                  ck_embeddings first_checkpoint)) by reflexivity.
  assert (Ht : total_batches [shout 0] <= 1) by (by vm_compute).
  split; [exact Hr|]. split; [exact Ht|].
  exact (X8_checkpoint_past_end_overrides_input init [shout 0] None
           resumable_disk 1 (ck_documents first_checkpoint)
           (ck_embeddings first_checkpoint) Hr Ht).
Defined.


Lemma hopeless_none :
  Forall (fun x => ~ survives x) (drop (Z.to_nat (0 * BATCH_SIZE)) hopeless).
Proof.
  apply Forall_cons_2; [|apply Forall_cons_2; [|apply Forall_nil_2]].
  - intros [e He]. by vm_compute in He.
  - intros [e He]. by vm_compute in He.
Qed.

(** Adding [hopeless] to a store that has an index. *)
Lemma X10_witness :
  resume empty_disk = (0, [], [])
  /\ 0 <= 0
  /\ Forall (fun x => ~ survives x) (drop (Z.to_nat (0 * BATCH_SIZE)) hopeless)
  /\ (add_documents demo_store hopeless (Some "index.pkl") empty_disk).1.1
     = {| index := index demo_store; documents := []; embeddings := Some [] |}
  /\ stores (add_documents demo_store hopeless (Some "index.pkl") empty_disk).1.2
     = stores empty_disk
  /\ (0 < total_batches hopeless ->
      info (add_documents demo_store hopeless (Some "index.pkl") empty_disk).1.2
      = Some (InfoRecord (Some (total_batches hopeless)))).
Proof.
  assert (Hr : resume empty_disk = (0, [], [])) by reflexivity.
  assert (Hs : 0 <= 0) by lia.
  split; [exact Hr|]. split; [exact Hs|]. split; [exact hopeless_none|].
  exact (X10_no_embedding_builds_nothing demo_store hopeless
           (Some "index.pkl") empty_disk 0 [] Hr Hs hopeless_none).
Defined.

(** [mixed], built twice. *)
Lemma X11_witness :
  info empty_disk = None
  /\ hello 0 ∈ mixed
  /\ survives (hello 0)
  /\ add_documents
       (add_documents init mixed (Some "index.pkl") empty_disk).1.1
       mixed (Some "index.pkl")
       (add_documents init mixed (Some "index.pkl") empty_disk).1.2
     = add_documents init mixed (Some "index.pkl") empty_disk.
Proof.
  assert (Hi : info empty_disk = None) by reflexivity.
  assert (Hx : hello 0 ∈ mixed) by (vm_compute; left).
  split; [exact Hi|]. split; [exact Hx|]. split; [exact (hello_survives 0)|].
  exact (X11_rebuild_is_idempotent init mixed (Some "index.pkl") empty_disk
           (hello 0) Hi Hx (hello_survives 0)).
Defined.

(** The run that resumes after the first batch of [mixed]: the artifact
    of the second batch holds the eight documents of the first batch
    and the two admitted ones of the second. *)
Lemma X13_witness :
  let c := {| ck_documents := (hello <$> seqZ 0 8) ++ [hello 8; hello 11];
              ck_embeddings := replicate 10 hello_vec |} in
  resume resumable_disk
    = (1, ck_documents first_checkpoint, ck_embeddings first_checkpoint)
  /\ 0 <= 1
  /\ WroteCheckpoint 1 c ∈ (add_documents init mixed None resumable_disk).2
  /\ 1 <= 1 < total_batches mixed
  /\ has_texts mixed 1
  /\ ck_documents c
     = ck_documents first_checkpoint ++ survivors_between mixed 1 1
  /\ ck_embeddings c
     = ck_embeddings first_checkpoint ++ embeddings_between mixed 1 1.
Proof.
  intros c.
  assert (Hr : resume resumable_disk
               = (1, ck_documents first_checkpoint,
                  ck_embeddings first_checkpoint)) by reflexivity.
  assert (Hs : 0 <= 1) by lia.
  assert (Hin : WroteCheckpoint 1 c
                ∈ (add_documents init mixed None resumable_disk).2)
    by (vm_compute; left).
  split; [exact Hr|]. split; [exact Hs|]. split; [exact Hin|].
  exact (X13_checkpoint_is_cumulative init mixed None resumable_disk 1
           (ck_documents first_checkpoint) (ck_embeddings first_checkpoint)
           1 c Hr Hs Hin).
Defined.

(** Five neighbours asked of a store with three vectors and one
    document: two labels are too large, two are -1. *)
Lemma X14_witness :
  index lagging_store = Some demo_index
  /\ encode (of_string "query") = Some query_vec
  /\ index_search demo_index query_vec 5 = Some query_hits
  /\ exists results,
       search lagging_store (of_string "query") 5 = inr results
       /\ Forall2 (from_hit (documents lagging_store)) results
            (filter (fun h => 0 <= h.2 < Z.of_nat (length (documents lagging_store)))
                    query_hits).
Proof.
  assert (Hi : index lagging_store = Some demo_index) by reflexivity.
  assert (Hq : encode (of_string "query") = Some query_vec)
    by (vm_compute; reflexivity).
  assert (Hs : index_search demo_index query_vec 5 = Some query_hits)
    by (vm_compute; reflexivity).
  split; [exact Hi|]. split; [exact Hq|]. split; [exact Hs|].
  exact (X14_search_keeps_hits_in_range lagging_store demo_index
           (of_string "query") query_vec 5 query_hits Hi Hq Hs).
Defined.

(** Three neighbours asked of the store built from [mixed]. *)
Lemma X15_witness :
  SearchContract /\ AnswerContract /\ BuildContract
  /\ info empty_disk = None
  /\ hello 0 ∈ mixed
  /\ survives (hello 0)
  /\ encode (of_string "query") = Some query_vec
  /\ 1 <= 3
  /\ exists results,
       search (add_documents init mixed None empty_disk).1.1
              (of_string "query") 3 = inr results
       /\ length results = Nat.min (Z.to_nat 3) (length (filter survives mixed)).
Proof.
  assert (Hi : info empty_disk = None) by reflexivity.
  assert (Hx : hello 0 ∈ mixed) by (vm_compute; left).
  assert (Hq : encode (of_string "query") = Some query_vec)
    by (vm_compute; reflexivity).
  assert (Hk : 1 <= 3) by lia.
  split; [exact flat_search_contract|]. split; [exact flat_answer_contract|].
  split; [exact flat_build_contract|].
  split; [exact Hi|]. split; [exact Hx|]. split; [exact (hello_survives 0)|].
  split; [exact Hq|]. split; [exact Hk|].
  exact (X15_built_store_answers_min_k init mixed None empty_disk (hello 0)
           (of_string "query") query_vec 3
           flat_search_contract flat_answer_contract flat_build_contract
           Hi Hx (hello_survives 0) Hq Hk).
Defined.


(** The two books of the sample folder, cut at the newlines. *)
Lemma X20_witness :
  NoDup (tb_path <$> [book_a; book_b])
  /\ NoDup (chunk_key <$> process_textbooks [book_a; book_b]).
Proof.
  assert (Hnd : NoDup (tb_path <$> [book_a; book_b]))
    by (apply (bool_decide_unpack _); by vm_compute).
  split; [exact Hnd|].
  exact (X20_chunk_keys_unique [book_a; book_b] Hnd).
Defined.

(** A folder that holds nothing. *)
Lemma X21_witness :
  load_textbooks "attic" = []
  /\ info empty_disk = None
  /\ build_index "attic" "index.pkl" empty_disk
     = ({| index := None; documents := []; embeddings := Some [] |},
        empty_disk, [])
  /\ forall question k,
       stores empty_disk !! "index.pkl" = None ->
       retrieve "index.pkl" question k
                (build_index "attic" "index.pkl" empty_disk).1.2
       = inl FileError.
Proof.
  assert (Hl : load_textbooks "attic" = []) by reflexivity.
  assert (Hi : info empty_disk = None) by reflexivity.
  split; [exact Hl|]. split; [exact Hi|].
  exact (X21_build_index_nothing_to_load "attic" "index.pkl" empty_disk Hl Hi).
Defined.

(** The sample folder: two of its four PDFs load, two of their three
    chunks are admitted. *)
Lemma X22_witness :
  info empty_disk = None
  /\ NoDup (get_all_pdf_paths "books")
  /\ documents (build_index "books" "index.pkl" empty_disk).1.1
     = filter survives (process_textbooks (load_textbooks "books"))
  /\ NoDup (chunk_key
            <$> documents (build_index "books" "index.pkl" empty_disk).1.1).
Proof.
  assert (Hi : info empty_disk = None) by reflexivity.
  assert (Hnd : NoDup (get_all_pdf_paths "books"))
    by (apply (bool_decide_unpack _); by vm_compute).
  split; [exact Hi|]. split; [exact Hnd|].
  exact (X22_build_index_documents "books" "index.pkl" empty_disk Hi Hnd).
Defined.


End Extras.
